(** * Terrain grid, bodies and motion resolution

    A shallow embedding of [src/world/Map.ts] (class [Map]) and of the
    [Actor] base class, with the properties of the movement-and-collision
    core stated and proved over it.

    Numbers.  A TypeScript [number] is modelled by [number] below: the exact
    rationals extended with [NaN], [+Infinity] and [-Infinity].  Arithmetic on
    finite values is exact (no IEEE-754 rounding, no overflow) and the sign of
    zero is not tracked (a zero divisor counts as [+0]); the special values
    follow the ECMAScript rules, so that [0 / 0] is [NaN], comparisons with
    [NaN] are false, and so on.  Results are kept in lowest terms.

    Loops.  [for] loops whose bound is a [number] may run forever (the bound
    can be [+Infinity]); they are modelled with a fuel argument and return
    [None] when the fuel runs out. *)

From Stdlib Require Import ZArith QArith Qround Qabs Qcanon Lia Lqa Bool.
From stdpp Require Import base option list.

(* ================================================================= *)
(** ** ECMAScript numbers *)

Module Number.

Local Open Scope Q_scope.

Inductive number : Type :=
| NaN
| NInf
| Fin (q : Q)
| PInf.

Definition of_Z (z : Z) : number := Fin (inject_Z z).

Definition Qltb (a b : Q) : bool := negb (Qle_bool b a).

Definition isFinite (x : number) : bool :=
  match x with Fin _ => true | _ => false end.

(** unary minus *)
Definition neg (x : number) : number :=
  match x with
  | NaN => NaN
  | NInf => PInf
  | PInf => NInf
  | Fin q => Fin (Qred (- q))
  end.

(** [x + y] *)
Definition add (x y : number) : number :=
  match x, y with
  | NaN, _ | _, NaN => NaN
  | PInf, NInf | NInf, PInf => NaN
  | PInf, _ | _, PInf => PInf
  | NInf, _ | _, NInf => NInf
  | Fin a, Fin b => Fin (Qred (a + b))
  end.

(** [x - y] *)
Definition sub (x y : number) : number :=
  match x, y with
  | NaN, _ | _, NaN => NaN
  | PInf, PInf | NInf, NInf => NaN
  | PInf, _ | _, NInf => PInf
  | NInf, _ | _, PInf => NInf
  | Fin a, Fin b => Fin (Qred (a - b))
  end.

(** an infinity of the given sign times [y] *)
Definition mul_inf (positive : bool) (y : number) : number :=
  match y with
  | NaN => NaN
  | PInf => if positive then PInf else NInf
  | NInf => if positive then NInf else PInf
  | Fin q =>
      match q ?= 0 with
      | Eq => NaN
      | Gt => if positive then PInf else NInf
      | Lt => if positive then NInf else PInf
      end
  end.

(** [x * y] *)
Definition mul (x y : number) : number :=
  match x, y with
  | NaN, _ | _, NaN => NaN
  | Fin a, Fin b => Fin (Qred (a * b))
  | PInf, _ => mul_inf true y
  | NInf, _ => mul_inf false y
  | _, PInf => mul_inf true x
  | _, NInf => mul_inf false x
  end.

(** [x / y]; a finite zero divisor is [+0] *)
Definition div (x y : number) : number :=
  match x, y with
  | NaN, _ | _, NaN => NaN
  | Fin a, Fin b =>
      if Qeq_bool b 0 then
        match a ?= 0 with
        | Eq => NaN
        | Gt => PInf
        | Lt => NInf
        end
      else Fin (Qred (a / b))
  | Fin _, (PInf | NInf) => Fin 0
  | (PInf | NInf), (PInf | NInf) => NaN
  | PInf, Fin b => if Qle_bool 0 b then PInf else NInf
  | NInf, Fin b => if Qle_bool 0 b then NInf else PInf
  end.

(** [x % y]: the remainder has the sign of the dividend *)
Definition rem (x y : number) : number :=
  match x, y with
  | NaN, _ | _, NaN => NaN
  | (PInf | NInf), _ => NaN
  | Fin a, (PInf | NInf) => Fin a
  | Fin a, Fin b =>
      if Qeq_bool b 0 then NaN
      else
        let t := if Qle_bool 0 (a / b) then Qfloor (a / b) else Qceiling (a / b) in
        Fin (Qred (a - b * inject_Z t))
  end.

(** [Math.floor], [Math.ceil], [Math.abs] *)
Definition floor (x : number) : number :=
  match x with Fin q => Fin (inject_Z (Qfloor q)) | _ => x end.

Definition ceil (x : number) : number :=
  match x with Fin q => Fin (inject_Z (Qceiling q)) | _ => x end.

Definition abs (x : number) : number :=
  match x with
  | NaN => NaN
  | NInf | PInf => PInf
  | Fin q => Fin (Qabs q)
  end.

(** [Math.ceil(Math.sqrt(x))].  The square root itself need not be rational,
    its ceiling is: the least natural number [n] with [x <= n * n]. *)
Definition ceil_sqrt (x : number) : number :=
  match x with
  | NaN | NInf => NaN
  | PInf => PInf
  | Fin q => if Qltb q 0 then NaN else Fin (inject_Z (Z.sqrt_up (Qceiling q)))
  end.

(** [x < y], [x <= y], [x > y], [x >= y] *)
Definition ltb (x y : number) : bool :=
  match x, y with
  | NaN, _ | _, NaN => false
  | Fin a, Fin b => Qltb a b
  | _, NInf => false
  | NInf, _ => true
  | PInf, _ => false
  | _, PInf => true
  end.

Definition leb (x y : number) : bool :=
  match x, y with
  | NaN, _ | _, NaN => false
  | Fin a, Fin b => Qle_bool a b
  | NInf, _ => true
  | _, NInf => false
  | _, PInf => true
  | PInf, _ => false
  end.

Definition gtb (x y : number) : bool := ltb y x.
Definition geb (x y : number) : bool := leb y x.

(** [x === y] and [x !== y] on numbers *)
Definition eqb (x y : number) : bool :=
  match x, y with
  | Fin a, Fin b => Qeq_bool a b
  | PInf, PInf | NInf, NInf => true
  | _, _ => false
  end.

Definition neqb (x y : number) : bool := negb (eqb x y).

(** Numeric equality as a proposition: the same special value, or equal
    rationals.  (Unlike [===] it relates [NaN] to itself.) *)
Definition same (x y : number) : Prop :=
  match x, y with
  | NaN, NaN | PInf, PInf | NInf, NInf => True
  | Fin a, Fin b => a == b
  | _, _ => False
  end.

(** The array index a number denotes: a non-negative integer. *)
Definition index (x : number) : option nat :=
  match x with
  | Fin q =>
      if Qeq_bool q (inject_Z (Qfloor q)) && Qle_bool 0 q
      then Some (Z.to_nat (Qfloor q)) else None
  | _ => None
  end.

End Number.

Import Number.

Declare Scope number_scope.
Delimit Scope number_scope with num.
Bind Scope number_scope with number.
Infix "+" := add : number_scope.
Infix "-" := sub : number_scope.
Infix "*" := mul : number_scope.
Infix "/" := div : number_scope.
Infix "mod" := rem : number_scope.
Notation "- x" := (neg x) : number_scope.
Infix "<?" := ltb : number_scope.
Infix "<=?" := leb : number_scope.
Infix ">?" := gtb : number_scope.
Infix ">=?" := geb : number_scope.
Infix "=?" := eqb : number_scope.

(** Integer and decimal literals of the source are written as [Z] and [Q]
    literals and read as numbers. *)
Coercion of_Z : Z >-> number.
Coercion Fin : Q >-> number.

Local Open Scope Z_scope.

(* ================================================================= *)
(** ** Points and actors *)

(** [IPointLike] / [PIXI.Point] *)
Module Point.

Record t : Type := new { x : number; y : number }.

End Point.

Module Actor.

(** The fields of [Actor] the core reads and writes.  [position] is the
    sprite's position ([this.x] and [this.y] are its coordinates);
    [collideable] is the value of the overridable getter. *)
Record t : Type := new {
  position : Point.t;
  size : Point.t;
  velocity : Point.t;
  fallthrough : option number;
  weight : number;
  id : number;
  collideable : bool
}.

Definition x (this : t) : number := Point.x (position this).
Definition y (this : t) : number := Point.y (position this).

Definition top (this : t) : number := y this.
Definition bottom (this : t) : number := (y this + Point.y (size this))%num.
Definition left (this : t) : number := x this.
Definition right (this : t) : number := (x this + Point.x (size this))%num.
Definition horizontalCenter (this : t) : number :=
  (x this + Point.x (size this) / 2)%num.
Definition verticalCenter (this : t) : number :=
  (y this + Point.y (size this) / 2)%num.

(** field updates *)
Definition set_position (this : t) (p : Point.t) : t :=
  new p (size this) (velocity this) (fallthrough this) (weight this)
      (id this) (collideable this).
Definition set_x (this : t) (v : number) : t :=
  set_position this (Point.new v (y this)).
Definition set_y (this : t) (v : number) : t :=
  set_position this (Point.new (x this) v).
Definition set_velocity (this : t) (p : Point.t) : t :=
  new (position this) (size this) p (fallthrough this) (weight this)
      (id this) (collideable this).
Definition set_velocity_x (this : t) (v : number) : t :=
  set_velocity this (Point.new v (Point.y (velocity this))).

Definition default_damper : number := 8.5%Q.

Section Repel.

(** [repulsionForce] comes from [physicalConstants], which is not part of
    the sources at hand; it is a parameter. *)
Variable repulsionForce : number -> number -> number.

(** [this.repel(other, damper)], for two distinct objects: the two actors
    after the call and the returned boolean. *)
Definition repel (this other : t) (damper : number) : t * t * bool :=
  if negb (collideable this) then (this, other, false)
  else
    let dist := (horizontalCenter this - horizontalCenter other)%num in
    if (abs dist <? (Point.x (size this) / 2 + Point.x (size other) / 2) * 0.85%Q)%num
    then
      if negb (collideable other) then (this, other, true)
      else if (abs (bottom this - bottom other) <? 15)%num then
        let force := repulsionForce dist damper in
        let weightRatio := (weight this / weight other)%num in
        if (dist <? 0)%num then
          let this' :=
            set_velocity_x this
              (Point.x (velocity this)
               - force / weightRatio
                 * (if (Point.x (velocity this) >? 0)%num then 2 else 1))%num in
          let other' :=
            set_velocity_x other
              (Point.x (velocity other)
               + force * weightRatio
                 * (if (Point.x (velocity other) <? 0)%num then 2 else 1))%num in
          (this', other', true)
        else
          let this' :=
            set_velocity_x this
              (Point.x (velocity this)
               + force / weightRatio
                 * (if (Point.x (velocity this) <? 0)%num then 2 else 1))%num in
          let other' :=
            set_velocity_x other
              (Point.x (velocity other)
               - force * weightRatio
                 * (if (Point.x (velocity other) >? 0)%num then 2 else 1))%num in
          (this', other', true)
      else (this, other, true)
    else (this, other, false).

End Repel.


End Actor.

(* ================================================================= *)
(** ** The terrain grid *)

Module Map.

Definition IS_SOLID : Z := 0x01.
Definition IS_WALKABLE : Z := 0x02.
Definition IS_POINT_WALKABLE : Z := 0x04.
Definition IS_FEARLESS : Z := 0x08.
Definition IS_WALLED : Z := 0x10.
Definition IS_PASSABLE : Z := 0x20.
Definition IS_DROPPABLE : Z := 0x40.

(** [enum GroundType]: a bitmask; two of its members have the same value. *)
Module GroundType.
Definition t : Type := Z.
Definition AIR : t := IS_DROPPABLE.
Definition SOLID : t := Z.lor (Z.lor IS_SOLID IS_WALLED) IS_WALKABLE.
Definition PASSABLE_SOLID : t := Z.lor IS_WALKABLE IS_PASSABLE.
Definition PASSABLE_RAMP : t := Z.lor IS_WALKABLE IS_PASSABLE.
Definition DROPPABLE : t := Z.lor (Z.lor IS_WALKABLE IS_PASSABLE) IS_DROPPABLE.
Definition POINT_PASSABLE : t := Z.lor IS_POINT_WALKABLE IS_DROPPABLE.
Definition SOLID_NO_FEAR : t :=
  Z.lor (Z.lor (Z.lor IS_SOLID IS_FEARLESS) IS_WALKABLE) IS_WALLED.
Definition DROPPABLE_NO_FEAR : t :=
  Z.lor (Z.lor (Z.lor IS_WALKABLE IS_FEARLESS) IS_PASSABLE) IS_DROPPABLE.
End GroundType.

(** What an element read of a typed array gives: [None] is [undefined]
    (index out of range, or not an index at all). *)
Definition element : Type := option Z.

(** [type & mask]; [undefined] converts to [0] *)
Definition band (type : element) (mask : Z) : Z :=
  Z.land (default 0 type) mask.

Definition isSolid (type : element) : bool := negb (band type IS_SOLID =? 0).
Definition isWalkable (type : element) : bool := negb (band type IS_WALKABLE =? 0).
Definition isPointWalkable (type : element) : bool :=
  negb (band type IS_POINT_WALKABLE =? 0).
Definition isFearless (type : element) : bool := negb (band type IS_FEARLESS =? 0).
Definition isWalled (type : element) : bool := negb (band type IS_WALLED =? 0).
Definition isPassable (type : element) : bool := negb (band type IS_PASSABLE =? 0).
Definition isDroppable (type : element) : bool := negb (band type IS_DROPPABLE =? 0).

(** *** testLine *)

(** The point sampled at iteration [i]. *)
Definition linePoint (start end_ : Point.t) (i : Z) (steps : number)
  : number * number :=
  ((Point.x start + (Point.x end_ - Point.x start) * i / steps)%num,
   (Point.y start + (Point.y end_ - Point.y start) * i / steps)%num).

(** The loop of [testLine] from iteration [i] on: the returned boolean and
    the points the predicate was called at, in call order. *)
Fixpoint testLine_loop (fuel : nat) (start end_ : Point.t)
    (test : number -> number -> bool) (steps : number) (i : Z)
  : option (bool * list (number * number)) :=
  if (i <=? steps)%num then
    match fuel with
    | O => None
    | S fuel' =>
        let p := linePoint start end_ i steps in
        if test p.1 p.2 then Some (true, [p])
        else
          r ← testLine_loop fuel' start end_ test steps (i + 1);
          Some (r.1, p :: r.2)
    end
  else Some (false, []).

Definition testLine_run (fuel : nat) (start end_ : Point.t)
    (test : number -> number -> bool) (steps : number)
  : option (bool * list (number * number)) :=
  testLine_loop fuel start end_ test steps 0.

Definition testLine (fuel : nat) (start end_ : Point.t)
    (test : number -> number -> bool) (steps : number) : option bool :=
  r ← testLine_run fuel start end_ test steps; Some r.1.

(** The points at which [testLine] called its predicate. *)
Definition testLine_calls (fuel : nat) (start end_ : Point.t)
    (test : number -> number -> bool) (steps : number)
  : option (list (number * number)) :=
  r ← testLine_run fuel start end_ test steps; Some r.2.

(** *** The grid *)

(** [mapData] is a [Uint8Array]. *)
Record t : Type := new {
  mapData : list Z;
  mapWidth : number;
  mapHeight : number
}.

Definition digitalWidth (this : t) : number := mapWidth this.
Definition digitalHeight (this : t) : number := mapHeight this.

Definition getPixelData (this : t) (x y : number) : element :=
  let x := floor x in
  let y := floor y in
  if (x <? 0)%num || (y <? 0)%num || (x >=? mapWidth this)%num
     || (y >=? mapHeight this)%num
  then Some GroundType.SOLID
  else i ← index (y * mapWidth this + x)%num; mapData this !! i.

(** [destroy] clears the data and keeps the dimensions. *)
Definition destroy (this : t) : t := new [] (mapWidth this) (mapHeight this).

(** *** Construction *)

(** What the constructor reads of the map texture: its dimensions and
    [imageData], the RGBA bytes [getImageData] yields once the texture is
    drawn on a canvas ([None] when there is no 2D context or no texture
    source). *)
Record Texture : Type := {
  width : number;
  height : number;
  imageData : option (list Z)
}.

(** The two errors the constructor throws.  [InvalidMapData x y r g b] is
    the error whose message reads: Invalid map data at x, y r g b. *)
Inductive Error : Type :=
| FailedToGenerateMapData
| InvalidMapData (x y : number) (r g b : element).

(** [e === v] for an array element and a literal *)
Definition equals (e : element) (v : Z) : bool :=
  match e with Some z => z =? v | None => false end.

(** The palette: the chain of tests on one pixel's red, green and blue. *)
Definition groundTypeOf (r g b : element) : option GroundType.t :=
  if equals r 0x00 && equals g 0x00 && equals b 0x00 then Some GroundType.SOLID
  else if equals r 0xFF && equals g 0xFF && equals b 0xFF then Some GroundType.AIR
  else if equals r 0xFF && equals g 0x00 && equals b 0x00 then Some GroundType.PASSABLE_SOLID
  else if equals r 0x00 && equals g 0xFF && equals b 0x00 then Some GroundType.PASSABLE_RAMP
  else if equals r 0xFF && equals g 0x00 && equals b 0xDC then Some GroundType.DROPPABLE
  else if equals r 0xFF && equals g 0xFF && equals b 0x00 then Some GroundType.POINT_PASSABLE
  else if equals r 0xAA && equals g 0xAA && equals b 0xAA then Some GroundType.SOLID_NO_FEAR
  else if equals r 0xFF && equals g 0x88 && equals b 0x99 then Some GroundType.DROPPABLE_NO_FEAR
  else None.

(** The offsets [0, 4, 8, ...] below [len] the decoding loop visits. *)
Definition pixelOffsets (len : nat) : list nat :=
  (fun k => 4 * k)%nat <$> seq 0 (Nat.div (len + 3) 4).

(** The decoding loop over the offsets still to visit. *)
Fixpoint decode (mapWidth : number) (data : list Z) (offsets : list nat)
    (mapData : list Z) : Error + list Z :=
  match offsets with
  | [] => inr mapData
  | i :: rest =>
      let r := data !! i in
      let g := data !! (i + 1)%nat in
      let b := data !! (i + 2)%nat in
      match groundTypeOf r g b with
      | Some type => decode mapWidth data rest (<[Nat.div i 4 := type]> mapData)
      | None =>
          inl (InvalidMapData
                 ((Z.of_nat i / 4) mod mapWidth)%num
                 (floor (Z.of_nat i / 4 / mapWidth)%num)
                 r g b)
      end
  end.

(** [new Map(mapTexture, backgroundImage)] *)
Definition construct (mapTexture : Texture) : Error + t :=
  match imageData mapTexture with
  | None => inl FailedToGenerateMapData
  | Some data =>
      match
        decode (width mapTexture) data (pixelOffsets (length data))
          (replicate (Nat.div (length data) 4) 0)
      with
      | inl e => inl e
      | inr mapData => inr (new mapData (width mapTexture) (height mapTexture))
      end
  end.

Section WithConstants.

(** [fuel] bounds the iterations of every loop; [EPSILON] comes from
    [physicalConstants], which is not part of the sources at hand. *)
Variable fuel : nat.
Variable EPSILON : number.

Definition actorIsOnWalkableGround (this : t) (actor : Actor.t)
    (verticalOffset : number) : option bool :=
  onLine ←
    testLine fuel
      (Point.new (Actor.left actor) (Actor.bottom actor + verticalOffset)%num)
      (Point.new (Actor.right actor - EPSILON)%num
                 (Actor.bottom actor + verticalOffset)%num)
      (fun x y => isWalkable (getPixelData this x y)) 2;
  Some (onLine
        || isPointWalkable
             (getPixelData this (Actor.horizontalCenter actor)
                (Actor.bottom actor + verticalOffset)%num)).

Definition actorIsOnSolidGround (this : t) (actor : Actor.t)
    (verticalOffset : number) : option bool :=
  testLine fuel
    (Point.new (Actor.left actor) (Actor.bottom actor + verticalOffset)%num)
    (Point.new (Actor.right actor - EPSILON)%num
               (Actor.bottom actor + verticalOffset)%num)
    (fun x y => isSolid (getPixelData this x y)) 2.

Definition actorIsInPassable (this : t) (actor : Actor.t) : option bool :=
  if match Actor.fallthrough actor with
     | Some f => (abs (Actor.y actor - f) <? 5)%num
     | None => false
     end
  then Some true
  else if isPointWalkable
            (getPixelData this (Actor.horizontalCenter actor)
               (Actor.bottom actor - 2)%num)
  then Some true
  else
    testLine fuel
      (Point.new (Actor.left actor) (Actor.bottom actor - 2)%num)
      (Point.new (Actor.right actor - EPSILON)%num (Actor.bottom actor - 2)%num)
      (fun x y => isPassable (getPixelData this x y))
      (Actor.right actor - Actor.left actor)%num.

Definition isGrounded (this : t) (actor : Actor.t) : option bool :=
  if (Point.y (Actor.velocity actor) <? 0)%num then Some false
  else
    walkable ← actorIsOnWalkableGround this actor 0;
    if negb walkable then Some false
    else
      solid ← actorIsOnSolidGround this actor 0;
      if (solid : bool) then Some true
      else
        passable ← actorIsInPassable this actor;
        if (passable : bool) then Some false else Some true.

(** *** move *)

(** The variables of [move]'s loop. *)
Record moving : Type := {
  body : Actor.t;
  movingX : bool;
  movingY : bool;
  collisions : bool * bool
}.

(** The [if (movingY)] part of the loop body. *)
Definition moveY (this : t) (magnitude : number) (st : moving) : option moving :=
  if movingY st then
    let a := body st in
    let a :=
      Actor.set_y a (Actor.y a + Point.y (Actor.velocity a) / magnitude)%num in
    if (Point.y (Actor.velocity a) <? 0)%num then
      Some {| body := a; movingX := movingX st; movingY := true;
              collisions := collisions st |}
    else
      solid ← actorIsOnSolidGround this a (- EPSILON)%num;
      hit ←
        (if (solid : bool) then Some true
         else
           walkable ← actorIsOnWalkableGround this a (- EPSILON)%num;
           if (walkable : bool) then
             passable ← actorIsInPassable this a; Some (negb passable)
           else Some false);
      if (hit : bool) then
        Some {| body := Actor.set_y a (floor (Actor.y a - EPSILON)%num);
                movingX := movingX st; movingY := false;
                collisions := ((collisions st).1, true) |}
      else
        Some {| body := a; movingX := movingX st; movingY := true;
                collisions := collisions st |}
  else Some st.

(** The slope detection at the end of the [if (movingX)] part. *)
Definition moveSlope (this : t) (st : moving) : option moving :=
  if negb (movingY st) then
    let a := body st in
    up ← actorIsOnWalkableGround this a (-1);
    if (up : bool) then
      Some {| body := Actor.set_y a (Actor.y a - 1)%num;
              movingX := movingX st; movingY := movingY st;
              collisions := collisions st |}
    else
      here ← actorIsOnWalkableGround this a 0;
      if (here : bool) then Some st
      else
        down ← actorIsOnWalkableGround this a 1;
        if (down : bool) then
          Some {| body := Actor.set_y a (Actor.y a + 1)%num;
                  movingX := movingX st; movingY := movingY st;
                  collisions := collisions st |}
        else Some st
  else Some st.

(** The [if (movingX)] part of the loop body. *)
Definition moveX (this : t) (magnitude : number) (st : moving) : option moving :=
  if movingX st then
    let a := body st in
    let a :=
      Actor.set_x a (Actor.x a + Point.x (Actor.velocity a) / magnitude)%num in
    let isWalledAt := fun x y => isWalled (getPixelData this x y) in
    st ←
      (if (Point.x (Actor.velocity a) <? 0)%num then
         hit ←
           testLine fuel
             (Point.new (Actor.left a) (Actor.top a))
             (Point.new (Actor.left a) (Actor.bottom a - 1 - EPSILON)%num)
             isWalledAt 1;
         if (hit : bool) then
           Some {| body := Actor.set_x a (ceil (Actor.x a));
                   movingX := false; movingY := movingY st;
                   collisions := (true, (collisions st).2) |}
         else
           Some {| body := a; movingX := true; movingY := movingY st;
                   collisions := collisions st |}
       else
         hit ←
           testLine fuel
             (Point.new (Actor.right a - EPSILON)%num (Actor.top a))
             (Point.new (Actor.right a - EPSILON)%num
                        (Actor.bottom a - 1 - EPSILON)%num)
             isWalledAt 1;
         if (hit : bool) then
           Some {| body := Actor.set_x a (floor (Actor.x a - EPSILON)%num);
                   movingX := false; movingY := movingY st;
                   collisions := (true, (collisions st).2) |}
         else
           Some {| body := a; movingX := true; movingY := movingY st;
                   collisions := collisions st |});
    moveSlope this st
  else Some st.

(** The loop of [move] from iteration [i] on, with [n] iterations allowed. *)
Fixpoint move_loop (n : nat) (this : t) (magnitude : number) (i : Z)
    (st : moving) : option moving :=
  if (i <? magnitude)%num && (movingX st || movingY st) then
    match n with
    | O => None
    | S n' =>
        st ← moveY this magnitude st;
        st ← moveX this magnitude st;
        move_loop n' this magnitude (i + 1) st
    end
  else Some st.

(** [this.move(actor)]: the grid and the actor after the call, and the
    returned pair [horizontal collision, vertical collision]. *)
Definition move (this : t) (actor : Actor.t)
  : option (t * Actor.t * (bool * bool)) :=
  let v := Actor.velocity actor in
  let magnitude := ceil_sqrt (Point.x v * Point.x v + Point.y v * Point.y v)%num in
  let movingX := neqb (Point.x v) 0 in
  let movingY := neqb (Point.y v) 0 in
  st ←
    move_loop fuel this magnitude 0
      {| body := actor; movingX := movingX; movingY := movingY;
         collisions := (false, false) |};
  Some (this, body st, collisions st).

End WithConstants.

End Map.

(* ================================================================= *)
(** ** Vocabulary of the statements *)

(** The order of the extended rationals; [NaN] is related to nothing. *)
Definition num_lt (x y : number) : Prop :=
  match x, y with
  | Fin a, Fin b => (a < b)%Q
  | NInf, (Fin _ | PInf) | Fin _, PInf => True
  | _, _ => False
  end.

Definition num_le (x y : number) : Prop :=
  match x, y with
  | Fin a, Fin b => (a <= b)%Q
  | NaN, _ | _, NaN => False
  | NInf, _ | _, PInf => True
  | _, _ => False
  end.

Infix "<" := num_lt : number_scope.
Infix "<=" := num_le : number_scope.

(** The number of iterations the loop [for (i = 0; i <= steps; i++)] makes
    when its body does not return: none for [NaN], without end ([None]) for
    [+Infinity]. *)
Definition iterations (steps : number) : option nat :=
  match steps with
  | Fin q => Some (Z.to_nat (Qfloor q + 1))
  | PInf => None
  | NaN | NInf => Some 0%nat
  end.

(** The points of the first [k] iterations of [testLine], in order. *)
Definition samples (start end_ : Point.t) (steps : number) (k : nat)
  : list (number * number) :=
  (fun i : nat => Map.linePoint start end_ (Z.of_nat i) steps) <$> seq 0 k.

(** The prefix of [pts] up to and including the first point that satisfies
    [test] (all of [pts] when none does). *)
Fixpoint upToFirst (test : number -> number -> bool)
    (pts : list (number * number)) : list (number * number) :=
  match pts with
  | [] => []
  | p :: rest => if test p.1 p.2 then [p] else p :: upToFirst test rest
  end.

Definition anyOf (test : number -> number -> bool)
    (pts : list (number * number)) : bool :=
  existsb (fun p => test p.1 p.2) pts.

(** The point [p] has the rational coordinates [(x, y)]. *)
Definition isAt (p : number * number) (x y : Q) : Prop :=
  same p.1 (Fin x) /\ same p.2 (Fin y).

(** The red, green and blue bytes of pixel [k] of RGBA data, and the
    ground type the palette gives it. *)
Definition classify (data : list Z) (k : nat) : option Map.GroundType.t :=
  Map.groundTypeOf (data !! (4 * k)%nat) (data !! (4 * k + 1)%nat)
    (data !! (4 * k + 2)%nat).

(** The palette as documented: the eight colours, as red, green and blue,
    and the ground type of each. *)
Definition palette : list (Z * Z * Z * Map.GroundType.t) :=
  [(0x00, 0x00, 0x00, Map.GroundType.SOLID);
   (0xFF, 0xFF, 0xFF, Map.GroundType.AIR);
   (0xFF, 0x00, 0x00, Map.GroundType.PASSABLE_SOLID);
   (0x00, 0xFF, 0x00, Map.GroundType.PASSABLE_RAMP);
   (0xFF, 0x00, 0xDC, Map.GroundType.DROPPABLE);
   (0xFF, 0xFF, 0x00, Map.GroundType.POINT_PASSABLE);
   (0xAA, 0xAA, 0xAA, Map.GroundType.SOLID_NO_FEAR);
   (0xFF, 0x88, 0x99, Map.GroundType.DROPPABLE_NO_FEAR)].

(** The ground type of the first palette entry of colour [(r, g, b)]. *)
Definition paletteLookup (r g b : Z) : option Map.GroundType.t :=
  match
    find (fun e => let '(r', g', b', _) := e in (r =? r') && (g =? g') && (b =? b'))
      palette
  with
  | Some (_, _, _, type) => Some type
  | None => None
  end.

(** The seven flags of a ground type, in the order of their bits:
    solid, walkable, point-walkable, fearless, walled, passable, droppable. *)
Definition flags (type : Map.GroundType.t) : list bool :=
  [Map.isSolid (Some type); Map.isWalkable (Some type);
   Map.isPointWalkable (Some type); Map.isFearless (Some type);
   Map.isWalled (Some type); Map.isPassable (Some type);
   Map.isDroppable (Some type)].

(** A texture of [w] by [h] pixels whose image data was read. *)
Definition textureOf (w h : Z) (data : list Z) : Map.Texture :=
  {| Map.width := w; Map.height := h; Map.imageData := Some data |}.

(** The grids the constructor returns on such textures. *)
Definition constructed (w h : Z) (m : Map.t) : Prop :=
  0 <= w /\ 0 <= h /\
  exists data : list Z,
    length data = Z.to_nat (4 * w * h) /\
    Map.construct (textureOf w h data) = inr m.

(** The error the constructor throws at pixel [k]. *)
Definition errorAt (mapWidth : number) (data : list Z) (k : nat) : Map.Error :=
  Map.InvalidMapData
    (of_Z (Z.of_nat k) mod mapWidth)%num
    (floor (of_Z (Z.of_nat k) / mapWidth)%num)
    (data !! (4 * k)%nat) (data !! (4 * k + 1)%nat) (data !! (4 * k + 2)%nat).


(** [a'] is [a] but for its position. *)
Definition moved (a a' : Actor.t) : Prop :=
  a' = Actor.set_position a (Actor.position a').

(** The scenario of the falling body: a grid of ten columns and one row,
    columns 0 to 4 [AIR] and 5 to 9 [SOLID], and a body of size 2 by 2 at
    [(2, -3)] with velocity [(0, 5)]. *)
Definition scenarioGrid : Map.t :=
  Map.new (replicate 5 Map.GroundType.AIR ++ replicate 5 Map.GroundType.SOLID)
    10%Z 1%Z.

Definition scenarioBody : Actor.t :=
  Actor.new (Point.new 2%Z (-3)%Z) (Point.new 2%Z 2%Z) (Point.new 0%Z 5%Z)
    None 1%Z 1%Z true.

(** The image the scenario's grid is decoded from: five white pixels and
    five black ones, as RGBA bytes. *)
Definition scenarioImage : list Z :=
  concat (replicate 5 [255; 255; 255; 255]) ++ concat (replicate 5 [0; 0; 0; 255]).

(** A platform: a grid of two columns and three rows, the last row
    [PASSABLE_SOLID], the others [AIR]; and a body of size 2 by 2 standing
    on the platform. *)
Definition platformGrid : Map.t :=
  Map.new (replicate 4 Map.GroundType.AIR
           ++ replicate 2 Map.GroundType.PASSABLE_SOLID) 2%Z 3%Z.

Definition standingBody : Actor.t :=
  Actor.new (Point.new 0%Z 0%Z) (Point.new 2%Z 2%Z) (Point.new 0%Z 0%Z)
    None 1%Z 2%Z true.

(** A body of the scenario's size and place that moves up. *)
Definition risingBody : Actor.t :=
  Actor.new (Point.new 2%Z (-3)%Z) (Point.new 2%Z 2%Z) (Point.new 0%Z (-5)%Z)
    None 1%Z 3%Z true.

(** Two overlapping bodies of width 10 on the same ground, the first one to
    the left and moving toward the second, and a constant repulsion. *)
Definition leftBody : Actor.t :=
  Actor.new (Point.new 0%Z 0%Z) (Point.new 10%Z 2%Z) (Point.new 1%Z 0%Z)
    None 1%Z 4%Z true.

Definition rightBody : Actor.t :=
  Actor.new (Point.new 4%Z 0%Z) (Point.new 10%Z 2%Z) (Point.new 1%Z 0%Z)
    None 2%Z 5%Z true.

Definition unitForce (dist damper : number) : number := 1%Z.

(** The eight ground types of the palette. *)
Definition groundTypes : list Map.GroundType.t := (fun e => e.2) <$> palette.

(** The texture with the dimensions of [tex] and image data [data]. *)
Definition withData (tex : Map.Texture) (data : list Z) : Map.Texture :=
  {| Map.width := Map.width tex; Map.height := Map.height tex;
     Map.imageData := Some data |}.

(** A coordinate pair a point query finds outside the grid. *)
Definition outside (this : Map.t) (x y : number) : Prop :=
  (floor x < 0%Z)%num \/ (floor y < 0%Z)%num
  \/ (Map.mapWidth this <= floor x)%num \/ (Map.mapHeight this <= floor y)%num.

(** The actor after the advance of one sub-step along an axis. *)
Definition advanceY (magnitude : number) (a : Actor.t) : Actor.t :=
  Actor.set_y a (Actor.y a + Point.y (Actor.velocity a) / magnitude)%num.

Definition advanceX (magnitude : number) (a : Actor.t) : Actor.t :=
  Actor.set_x a (Actor.x a + Point.x (Actor.velocity a) / magnitude)%num.

(** The loop state [st] with another actor. *)
Definition withBody (st : Map.moving) (a : Actor.t) : Map.moving :=
  {| Map.body := a; Map.movingX := Map.movingX st;
     Map.movingY := Map.movingY st; Map.collisions := Map.collisions st |}.

(** [x] is a whole number, or not a finite number at all. *)
Definition whole (x : number) : Prop := floor x = x.

(** A body of the scenario's size standing on the solid columns of the
    scenario's grid. *)
Definition groundedBody : Actor.t :=
  Actor.new (Point.new 6%Z (-2)%Z) (Point.new 2%Z 2%Z) (Point.new 0%Z 0%Z)
    None 1%Z 6%Z true.

(** A corridor: a grid of ten columns and four rows, columns 0 to 4 [AIR]
    and 5 to 9 [SOLID] in every row; and a body of size 2 by 2 in it that
    runs to the right. *)
Definition corridorGrid : Map.t :=
  Map.new
    (concat (replicate 4 (replicate 5 Map.GroundType.AIR
                          ++ replicate 5 Map.GroundType.SOLID)))
    10%Z 4%Z.

Definition runner : Actor.t :=
  Actor.new (Point.new 1%Z 1%Z) (Point.new 2%Z 2%Z) (Point.new 3%Z 0%Z)
    None 1%Z 7%Z true.

(** The scenario's image with another alpha channel. *)
Definition scenarioImageClear : list Z :=
  concat (replicate 5 [255; 255; 255; 0]) ++ concat (replicate 5 [0; 0; 0; 0]).

(* ================================================================= *)
(** ** Facts about numbers *)

Section NumberFacts.

Local Open Scope Q_scope.

Lemma Qltb_lt (a b : Q) : Qltb a b = true <-> a < b.
Proof.
  unfold Qltb. rewrite negb_true_iff, <- not_true_iff_false, Qle_bool_iff.
  split; [apply Qnot_le_lt | apply Qlt_not_le].
Qed.

Lemma Qltb_ge (a b : Q) : Qltb a b = false <-> b <= a.
Proof.
  unfold Qltb. rewrite negb_false_iff. apply Qle_bool_iff.
Qed.

Lemma Qred_inject_Z (z : Z) : Qred (inject_Z z) = inject_Z z.
Proof.
  apply Qcanon.Qred_identity. simpl. apply Z.gcd_1_r.
Qed.

Lemma Qred_integer (q : Q) (z : Z) : q == inject_Z z -> Qred q = inject_Z z.
Proof.
  intros H. rewrite <- Qred_inject_Z. now apply Qred_complete.
Qed.


Lemma ltb_lt (x y : number) : (x <? y)%num = true <-> (x < y)%num.
Proof.
  destruct x, y; simpl; try (split; (discriminate || tauto || reflexivity));
    try tauto.
  apply Qltb_lt.
Qed.

Lemma leb_le (x y : number) : (x <=? y)%num = true <-> (x <= y)%num.
Proof.
  destruct x, y; simpl; try (split; (discriminate || tauto || reflexivity));
    try tauto.
  apply Qle_bool_iff.
Qed.

Lemma leb_of_Z (a b : Z) : (of_Z a <=? of_Z b)%num = (a <=? b)%Z.
Proof.
  unfold of_Z, leb, Qle_bool. simpl. now rewrite !Z.mul_1_r.
Qed.

Lemma ltb_of_Z (a b : Z) : (of_Z a <? of_Z b)%num = (a <? b)%Z.
Proof.
  unfold of_Z, ltb, Qltb, Qle_bool. simpl. rewrite !Z.mul_1_r.
  now rewrite Z.ltb_antisym.
Qed.

Lemma add_NaN_r (x : number) : (x + NaN)%num = NaN.
Proof. now destruct x. Qed.

(** [x * 0 / 0] is [NaN] whatever [x] is. *)
Lemma mul_zero_div_zero (x : number) : (x * 0%Z / 0%Z)%num = NaN.
Proof.
  destruct x as [| |q|]; try reflexivity.
  unfold mul, div, of_Z.
  replace (Qeq_bool (inject_Z 0) 0) with true by reflexivity.
  assert (H : Qred (q * inject_Z 0) == 0).
  { rewrite Qred_correct. apply Qmult_0_r. }
  apply Qeq_alt in H. now rewrite H.
Qed.

(** [ceil_sqrt] is the ceiling of the square root: on [q >= 0] it is the
    natural number [n] with [(n - 1)^2 < q <= n^2] ([0] for [q = 0]). *)
Lemma ceil_sqrt_spec (q : Q) :
  0 <= q ->
  exists n : Z,
    ceil_sqrt (Fin q) = of_Z n
    /\ (0 <= n)%Z
    /\ q <= inject_Z (n * n)
    /\ ((0 < n)%Z -> inject_Z ((n - 1) * (n - 1)) < q).
Proof.
  intros Hq. exists (Z.sqrt_up (Qceiling q)).
  unfold ceil_sqrt. replace (Qltb q 0) with false
    by (symmetry; now apply Qltb_ge).
  split; [reflexivity|]. split; [apply Z.sqrt_up_nonneg|].
  destruct (Z.lt_ge_cases 0 (Qceiling q)) as [Hc|Hc].
  - pose proof (Z.sqrt_up_spec (Qceiling q) Hc) as [Hlo Hhi]. split.
    + eapply Qle_trans; [apply Qle_ceiling|]. now rewrite <- Zle_Qle.
    + intros _. apply Qle_lt_trans with (inject_Z (Qceiling q - 1)).
      * rewrite <- Zle_Qle. rewrite <- Z.sub_1_r in Hlo. lia.
      * apply Qceiling_lt.
  - rewrite (Z.sqrt_up_eqn0 _ Hc). split; [|lia].
    eapply Qle_trans; [apply Qle_ceiling|]. now rewrite <- Zle_Qle.
Qed.

End NumberFacts.

(* ================================================================= *)
(** ** testLine *)

Section TestLine.

Variables (start end_ : Point.t) (test : number -> number -> bool).

Lemma leb_of_Z_Fin (i : Z) (q : Q) : (of_Z i <=? Fin q)%num = (i <=? Qfloor q)%Z.
Proof.
  unfold leb, of_Z. apply eq_true_iff_eq. rewrite Qle_bool_iff, Z.leb_le. split.
  - intros H. apply Qfloor_resp_le in H. now rewrite Qfloor_Z in H.
  - intros H. eapply Qle_trans; [|apply Qfloor_le]. now rewrite <- Zle_Qle.
Qed.

(** From iteration [i], with [k] iterations left before [i] exceeds the
    finite bound [q], the loop calls [test] on the next [k] sample points in
    turn, stops at the first hit, and needs [k] units of fuel at most. *)
Lemma testLine_loop_finite (q : Q) (k : nat) :
  forall (fuel : nat) (i : Z),
    Z.of_nat k = Z.max 0 (Qfloor q + 1 - i) ->
    (k <= fuel)%nat ->
    let pts :=
      (fun j : nat => Map.linePoint start end_ (i + Z.of_nat j) q) <$> seq 0 k in
    Map.testLine_loop fuel start end_ test q i
    = Some (anyOf test pts, upToFirst test pts).
Proof.
  induction k as [|k IH]; intros fuel i Hik Hfuel pts.
  - destruct fuel; cbn [Map.testLine_loop]; rewrite leb_of_Z_Fin;
      (replace (i <=? Qfloor q)%Z with false by (symmetry; apply Z.leb_gt; lia));
      reflexivity.
  - destruct fuel as [|fuel]; [lia|].
    cbn [Map.testLine_loop]. rewrite leb_of_Z_Fin.
    replace (i <=? Qfloor q)%Z with true by (symmetry; apply Z.leb_le; lia).
    subst pts. rewrite <- cons_seq, fmap_cons. cbn [anyOf existsb upToFirst].
    rewrite Z.add_0_r.
    destruct (test _ _) eqn:Htest; [reflexivity|].
    rewrite (IH fuel (i + 1)) by lia. cbn [mbind option_bind fst snd].
    rewrite <- fmap_S_seq, <- list_fmap_compose.
    unfold anyOf. simpl.
    do 2 f_equal.
    + f_equal. apply list_fmap_ext. intros _ j _. simpl. f_equal. lia.
    + do 2 f_equal. apply list_fmap_ext. intros _ j _. simpl. f_equal. lia.
Qed.

(** [testLine] returns whenever its bound is not [+Infinity] and the fuel
    covers the iterations: it has called [test] on the sample points in
    order, up to the first hit. *)
Lemma testLine_run_returns (steps : number) (k fuel : nat) :
  iterations steps = Some k ->
  (k <= fuel)%nat ->
  Map.testLine_run fuel start end_ test steps
  = Some (anyOf test (samples start end_ steps k),
          upToFirst test (samples start end_ steps k)).
Proof.
  intros Hk Hfuel. unfold Map.testLine_run.
  destruct steps as [| |q|]; try discriminate; injection Hk as <-.
  - destruct fuel; reflexivity.
  - destruct fuel; reflexivity.
  - rewrite (testLine_loop_finite q (Z.to_nat (Qfloor q + 1))) by lia.
    reflexivity.
Qed.

Lemma testLine_returns (steps : number) (k fuel : nat) :
  iterations steps = Some k ->
  (k <= fuel)%nat ->
  Map.testLine fuel start end_ test steps
  = Some (anyOf test (samples start end_ steps k)).
Proof.
  intros Hk Hfuel. unfold Map.testLine.
  now rewrite (testLine_run_returns steps k fuel Hk Hfuel).
Qed.


End TestLine.

Section TestLineClaims.

Variables (start end_ : Point.t) (test : number -> number -> bool).

Lemma Qeq_bool_inject_Z_0 (n : Z) : n <> 0 -> Qeq_bool (inject_Z n) 0 = false.
Proof.
  intros Hn. apply not_true_iff_false. rewrite Qeq_bool_iff.
  unfold Qeq. simpl. lia.
Qed.

(** On finite end points and a non-zero integer count, the sampled
    coordinate is the exact rational [s + (e - s) * i / n]. *)
Lemma sample_finite (s e : Q) (i n : Z) :
  n <> 0 ->
  same (Fin s + (Fin e - Fin s) * i / n)%num
       (Fin (s + (e - s) * inject_Z i / inject_Z n)%Q).
Proof.
  intros Hn. unfold add, sub, mul, div, of_Z.
  rewrite (Qeq_bool_inject_Z_0 n Hn). unfold same.
  now rewrite !Qred_correct.
Qed.

(** C2 (as amended).  With [steps = 0] the loop body runs once, and the one
    point the predicate is called at is [(NaN, NaN)]: both coordinates are
    [start + (end - start) * 0 / 0], and [0 / 0] is [NaN].  The result of
    [testLine] is the predicate's value there. *)
Theorem testLine_zero_steps (fuel : nat) :
  Map.testLine_run (S fuel) start end_ test 0%Z
  = Some (test NaN NaN, [(NaN, NaN)]).
Proof.
  unfold Map.testLine_run. cbn [Map.testLine_loop].
  replace (0%Z <=? 0%Z)%num with true by reflexivity.
  unfold Map.linePoint. rewrite !mul_zero_div_zero, !add_NaN_r.
  cbn [fst snd].
  destruct (test NaN NaN); [reflexivity|].
  destruct fuel; reflexivity.
Qed.


End TestLineClaims.

(* ================================================================= *)
(** ** Construction *)

Section Construction.

Lemma div_4_of_Z (k : nat) :
  (of_Z (Z.of_nat (4 * k)) / of_Z 4)%num = of_Z (Z.of_nat k).
Proof.
  unfold div, of_Z. rewrite Qeq_bool_inject_Z_0 by lia. f_equal.
  apply Qred_integer. rewrite Nat2Z.inj_mul, inject_Z_mult.
  change (inject_Z (Z.of_nat 4)) with (inject_Z 4). field.
Qed.

Lemma rem_of_Z (k w : Z) :
  0 <= k -> 0 < w -> (of_Z k mod of_Z w)%num = of_Z (k mod w).
Proof.
  intros Hk Hw. unfold rem, of_Z. rewrite Qeq_bool_inject_Z_0 by lia.
  f_equal.
  assert (Hq : Qfloor (inject_Z k / inject_Z w) = k / w)
    by (symmetry; apply Zdiv_Qdiv).
  assert (Hpos : Qle_bool 0 (inject_Z k / inject_Z w) = true).
  { apply Qle_bool_iff. apply Qle_shift_div_l.
    - change 0%Q with (inject_Z 0). rewrite <- Zlt_Qlt. exact Hw.
    - rewrite Qmult_0_l. change 0%Q with (inject_Z 0). rewrite <- Zle_Qle.
      exact Hk. }
  rewrite Hpos, Hq. apply Qred_integer.
  rewrite <- inject_Z_mult. unfold Qminus. rewrite <- inject_Z_opp, <- inject_Z_plus.
  rewrite Z.mod_eq by lia. apply inject_Z_injective. lia.
Qed.

Lemma floor_div_of_Z (k w : Z) :
  0 < w -> floor (of_Z k / of_Z w)%num = of_Z (k / w).
Proof.
  intros Hw. unfold div, floor, of_Z. rewrite Qeq_bool_inject_Z_0 by lia.
  rewrite (Qfloor_comp _ _ (Qred_correct _)). now rewrite <- Zdiv_Qdiv.
Qed.

Variables (mapWidth : number) (data : list Z).

(** The decoding loop over pixels [j, j + c): either every one of them is in
    the palette and its ground type is stored at its index, the rest of
    [mapData] being as before, or the loop stops with the error of the
    first pixel that is not. *)
Lemma decode_pixels (c : nat) :
  forall (j : nat) (mapData : list Z),
    match
      Map.decode mapWidth data ((fun k => 4 * k)%nat <$> seq j c) mapData
    with
    | inr mapData' =>
        length mapData' = length mapData
        /\ (forall k, (j <= k < j + c)%nat ->
              exists type,
                classify data k = Some type
                /\ ((k < length mapData)%nat -> mapData' !! k = Some type))
        /\ (forall k, ~ (j <= k < j + c)%nat -> mapData' !! k = mapData !! k)
    | inl e =>
        exists k,
          (j <= k < j + c)%nat
          /\ classify data k = None
          /\ (forall k', (j <= k' < k)%nat -> classify data k' <> None)
          /\ e = errorAt mapWidth data k
    end.
Proof.
  induction c as [|c IH]; intros j mapData.
  - simpl. split; [reflexivity|]. split; [intros k Hk; lia | reflexivity].
  - rewrite <- cons_seq, fmap_cons. cbn [Map.decode].
    replace ((4 * j) `div` 4)%nat with j
      by (symmetry; rewrite Nat.mul_comm; apply Nat.div_mul; lia).
    fold (classify data j).
    destruct (classify data j) as [type|] eqn:Hj.
    + specialize (IH (S j) (<[j:=type]> mapData)).
      destruct (Map.decode _ _ _ _) as [e|mapData'].
      * destruct IH as (k & Hk & Hbad & Hfirst & ->).
        exists k. split; [lia|]. split; [exact Hbad|]. split; [|reflexivity].
        intros k' Hk'. destruct (decide (k' = j)) as [->|Hne].
        -- rewrite Hj. discriminate.
        -- apply Hfirst. lia.
      * destruct IH as (Hlen & Hin & Hout). rewrite length_insert in Hlen, Hin.
        split; [exact Hlen|]. split.
        -- intros k Hk. destruct (decide (k = j)) as [->|Hne].
           ++ exists type. split; [exact Hj|]. intros Hlt.
              rewrite Hout by lia. now apply list_lookup_insert_eq.
           ++ apply Hin. lia.
        -- intros k Hk. rewrite Hout by lia.
           apply list_lookup_insert_ne. lia.
    + exists j. split; [lia|]. split; [exact Hj|]. split; [intros k' Hk'; lia|].
      unfold errorAt. now rewrite div_4_of_Z.
Qed.


Lemma pixelOffsets_whole (n : nat) :
  Map.pixelOffsets (4 * n) = (fun k => 4 * k)%nat <$> seq 0 n.
Proof.
  unfold Map.pixelOffsets. do 2 f_equal.
  rewrite (Nat.mul_comm 4 n), Nat.div_add_l by lia. simpl. lia.
Qed.

End Construction.

(** The chain of colour tests looks the colour up in the palette. *)
Lemma groundTypeOf_palette (r g b : Z) :
  Map.groundTypeOf (Some r) (Some g) (Some b) = paletteLookup r g b.
Proof.
  unfold Map.groundTypeOf, paletteLookup, palette, Map.equals. cbn [find].
  repeat (destruct (_ && _); [reflexivity|]). reflexivity.
Qed.

(** What the constructor does on image data of [n] whole pixels. *)
Lemma construct_outcome (tex : Map.Texture) (data : list Z) (n : nat) :
  Map.imageData tex = Some data ->
  length data = (4 * n)%nat ->
  match Map.construct tex with
  | inr m =>
      Map.mapWidth m = Map.width tex
      /\ Map.mapHeight m = Map.height tex
      /\ length (Map.mapData m) = n
      /\ forall k, (k < n)%nat ->
           exists type,
             classify data k = Some type /\ Map.mapData m !! k = Some type
  | inl e =>
      exists k,
        (k < n)%nat
        /\ classify data k = None
        /\ (forall k', (k' < k)%nat -> classify data k' <> None)
        /\ e = errorAt (Map.width tex) data k
  end.
Proof.
  intros Hdata Hlen.
  unfold Map.construct. rewrite Hdata, Hlen, pixelOffsets_whole.
  replace ((4 * n) `div` 4)%nat with n
    by (symmetry; rewrite Nat.mul_comm; apply Nat.div_mul; lia).
  pose proof (decode_pixels (Map.width tex) data n 0%nat (replicate n 0)) as H.
  destruct (Map.decode _ _ _ _) as [e|mapData'].
  - destruct H as (k & Hk & Hbad & Hfirst & ->).
    exists k. split; [lia|]. split; [exact Hbad|]. split; [|reflexivity].
    intros k' Hk'. apply Hfirst. lia.
  - destruct H as (Hl & Hin & _). rewrite length_replicate in Hl, Hin.
    cbn [Map.mapWidth Map.mapHeight Map.mapData].
    repeat split; try exact Hl.
    intros k Hk. destruct (Hin k) as (type & Hc & Hlook); [lia|].
    exists type. split; [exact Hc | apply Hlook; exact Hk].
Qed.

(** C4.  On image data of [n] whole pixels the constructor either returns
    a grid with the texture's dimensions whose cell [k] holds the ground
    type the palette gives pixel [k], or throws the error of the first
    pixel [k] that is not in the palette, which carries the pixel's column
    [k mod width] and row [floor (k / width)] and its three channel values;
    it throws if and only if some pixel is not in the palette.  The chain
    of colour tests is a lookup in the documented palette of eight colours,
    and the flags of the eight ground types are as documented. *)
Theorem construct_decodes_palette (tex : Map.Texture) (data : list Z) (n : nat) :
  Map.imageData tex = Some data ->
  length data = (4 * n)%nat ->
  match Map.construct tex with
  | inr m =>
      Map.mapWidth m = Map.width tex
      /\ Map.mapHeight m = Map.height tex
      /\ length (Map.mapData m) = n
      /\ forall k, (k < n)%nat ->
           exists type,
             classify data k = Some type /\ Map.mapData m !! k = Some type
  | inl e =>
      exists k,
        (k < n)%nat
        /\ classify data k = None
        /\ (forall k', (k' < k)%nat -> classify data k' <> None)
        /\ e = errorAt (Map.width tex) data k
        /\ forall w : Z,
             0 < w ->
             Map.width tex = of_Z w ->
             e = Map.InvalidMapData
                   (of_Z (Z.of_nat k mod w)) (of_Z (Z.of_nat k / w))
                   (data !! (4 * k)%nat) (data !! (4 * k + 1)%nat)
                   (data !! (4 * k + 2)%nat)
  end
  /\ ((exists e, Map.construct tex = inl e)
      <-> exists k, (k < n)%nat /\ classify data k = None)
  /\ (forall r g b : Z,
         Map.groundTypeOf (Some r) (Some g) (Some b) = paletteLookup r g b)
  /\ flags Map.GroundType.SOLID = [true; true; false; false; true; false; false]
  /\ flags Map.GroundType.AIR = [false; false; false; false; false; false; true]
  /\ flags Map.GroundType.PASSABLE_SOLID
     = [false; true; false; false; false; true; false]
  /\ flags Map.GroundType.PASSABLE_RAMP
     = [false; true; false; false; false; true; false]
  /\ flags Map.GroundType.DROPPABLE = [false; true; false; false; false; true; true]
  /\ flags Map.GroundType.POINT_PASSABLE
     = [false; false; true; false; false; false; true]
  /\ flags Map.GroundType.SOLID_NO_FEAR
     = [true; true; false; true; true; false; false]
  /\ flags Map.GroundType.DROPPABLE_NO_FEAR
     = [false; true; false; true; false; true; true].
Proof.
  intros Hdata Hlen.
  pose proof (construct_outcome tex data n Hdata Hlen) as Hrun.
  split; [|split].
  - destruct (Map.construct tex) as [e|m]; [|exact Hrun].
    destruct Hrun as (k & Hk & Hbad & Hfirst & ->).
    exists k. repeat (split; [assumption || reflexivity|]).
    intros w Hw Hwidth. unfold errorAt. rewrite Hwidth.
    rewrite rem_of_Z by lia. now rewrite floor_div_of_Z by lia.
  - destruct (Map.construct tex) as [e|m].
    + destruct Hrun as (k & Hk & Hbad & _). split; [|eauto]. intros _. eauto.
    + destruct Hrun as (_ & _ & _ & Hall). split.
      * intros [e He]. discriminate.
      * intros (k & Hk & Hbad). destruct (Hall k Hk) as (type & Hc & _).
        congruence.
  - split; [apply groundTypeOf_palette|]. repeat split; reflexivity.
Qed.

(* ================================================================= *)
(** ** Point queries *)

Section PointQueries.

Lemma add_of_Z (a b : Z) : (of_Z a + of_Z b)%num = of_Z (a + b).
Proof.
  unfold add, of_Z. f_equal. apply Qred_integer. now rewrite inject_Z_plus.
Qed.

Lemma mul_of_Z (a b : Z) : (of_Z a * of_Z b)%num = of_Z (a * b).
Proof.
  unfold mul, of_Z. f_equal. apply Qred_integer. now rewrite inject_Z_mult.
Qed.

Lemma index_of_Z (z : Z) : 0 <= z -> index (of_Z z) = Some (Z.to_nat z).
Proof.
  intros Hz. unfold index, of_Z. rewrite Qfloor_Z.
  replace (Qeq_bool (inject_Z z) (inject_Z z)) with true
    by (symmetry; apply Qeq_bool_iff; reflexivity).
  replace (Qle_bool 0 (inject_Z z)) with true; [reflexivity|].
  symmetry. apply Qle_bool_iff. change 0%Q with (inject_Z 0).
  now rewrite <- Zle_Qle.
Qed.

Lemma le_of_Z (a b : Z) : (of_Z a <= of_Z b)%num <-> a <= b.
Proof. unfold num_le, of_Z. now rewrite <- Zle_Qle. Qed.

Lemma lt_of_Z (a b : Z) : (of_Z a < of_Z b)%num <-> a < b.
Proof. unfold num_lt, of_Z. now rewrite <- Zlt_Qlt. Qed.

(** A constructed grid has integer dimensions and one cell per pixel. *)
Lemma constructed_shape (w h : Z) (m : Map.t) :
  constructed w h m ->
  Map.mapWidth m = of_Z w
  /\ Map.mapHeight m = of_Z h
  /\ length (Map.mapData m) = Z.to_nat (w * h).
Proof.
  intros (Hw & Hh & data & Hlen & Hm).
  pose proof (construct_outcome (textureOf w h data) data
                (Z.to_nat (w * h)) eq_refl) as H.
  rewrite Hm in H. specialize (H ltac:(rewrite Hlen; lia)). destruct H as (H1 & H2 & H3 & _). auto.
Qed.


(** C3.  On a constructed grid of [w] by [h] cells, [getPixelData] floors
    its two coordinates; when a floored coordinate is negative or at least
    the width (for [x]) or the height (for [y]), the result is [SOLID];
    when both lie within the grid they are integers [cx] and [cy] and the
    result is the ground type stored for cell [(cx, cy)], at index
    [cy * w + cx] of the data. *)
Theorem getPixelData_bounds (w h : Z) (m : Map.t) (x y : number) :
  constructed w h m ->
  ((floor x < 0)%num \/ (floor y < 0)%num \/ (w <= floor x)%num
   \/ (h <= floor y)%num ->
   Map.getPixelData m x y = Some Map.GroundType.SOLID)
  /\ ((0 <= floor x)%num /\ (floor x < w)%num
      /\ (0 <= floor y)%num /\ (floor y < h)%num ->
      exists (cx cy : Z) (type : Map.GroundType.t),
        floor x = of_Z cx /\ floor y = of_Z cy
        /\ 0 <= cx < w /\ 0 <= cy < h
        /\ Map.mapData m !! Z.to_nat (cy * w + cx) = Some type
        /\ Map.getPixelData m x y = Some type).
Proof.
  intros Hm. destruct (constructed_shape w h m Hm) as (Hw & Hh & Hlen).
  unfold Map.getPixelData. rewrite Hw, Hh. unfold geb. split.
  - intros Hout.
    assert (Hcond :
      ((floor x <? 0%Z)%num || (floor y <? 0%Z)%num || (of_Z w <=? floor x)%num
       || (of_Z h <=? floor y)%num) = true).
    { rewrite !orb_true_iff, !ltb_lt, !leb_le. tauto. }
    now rewrite Hcond.
  - intros (Hx0 & Hxw & Hy0 & Hyh).
    destruct x as [| |qx|]; try contradiction.
    destruct y as [| |qy|]; try contradiction.
    cbn [floor] in *. fold (of_Z (Qfloor qx)) in *.
    fold (of_Z (Qfloor qy)) in *.
    apply (proj1 (le_of_Z _ _)) in Hx0, Hy0.
    apply (proj1 (lt_of_Z _ _)) in Hxw, Hyh.
    rewrite !ltb_of_Z, !leb_of_Z.
    replace (Qfloor qx <? 0)%Z with false by (symmetry; apply Z.ltb_ge; lia).
    replace (Qfloor qy <? 0)%Z with false by (symmetry; apply Z.ltb_ge; lia).
    replace (w <=? Qfloor qx)%Z with false by (symmetry; apply Z.leb_gt; lia).
    replace (h <=? Qfloor qy)%Z with false by (symmetry; apply Z.leb_gt; lia).
    assert (Hrow0 : 0 <= Qfloor qy * w) by (apply Z.mul_nonneg_nonneg; lia).
    assert (Hrow : Qfloor qy * w <= (h - 1) * w)
      by (apply Z.mul_le_mono_nonneg_r; lia).
    cbn [orb]. rewrite mul_of_Z, add_of_Z, index_of_Z by lia.
    cbn [mbind option_bind].
    destruct (lookup_lt_is_Some_2 (Map.mapData m)
                (Z.to_nat (Qfloor qy * w + Qfloor qx))) as [type Htype];
      [rewrite Hlen; lia|].
    exists (Qfloor qx), (Qfloor qy), type.
    repeat split; try lia; assumption.
Qed.

(** A [NaN] coordinate is in neither case: no comparison holds of it, and
    the read at the index [NaN] gives [undefined]. *)
Lemma getPixelData_NaN (w h : Z) (m : Map.t) (y : number) :
  constructed w h m ->
  (0 <= floor y)%num -> (floor y < h)%num ->
  Map.getPixelData m NaN y = None.
Proof.
  intros Hm Hy0 Hyh. destruct (constructed_shape w h m Hm) as (Hw & Hh & Hlen).
  unfold Map.getPixelData. rewrite Hw, Hh. unfold geb.
  destruct y as [| |qy|]; try contradiction.
  cbn [floor] in *. fold (of_Z (Qfloor qy)) in *.
  apply (proj1 (le_of_Z _ _)) in Hy0. apply (proj1 (lt_of_Z _ _)) in Hyh.
  rewrite !ltb_of_Z, !leb_of_Z.
  replace (Qfloor qy <? 0)%Z with false by (symmetry; apply Z.ltb_ge; lia).
  replace (h <=? Qfloor qy)%Z with false by (symmetry; apply Z.leb_gt; lia).
  reflexivity.
Qed.

End PointQueries.

(* ================================================================= *)
(** ** repel *)

Section Repel.

Variable repulsionForce : number -> number -> number.

(** C7.  [repel] returns [true] exactly when [this] is collideable and the
    horizontal centres are less than [0.85] times the sum of the half widths
    apart; and unless [other] is collideable too and the bottoms differ by
    less than [15], both actors, hence both velocities, are as before. *)
Theorem repel_returns_and_frame (this other : Actor.t) (damper : number) :
  let dist := (Actor.horizontalCenter this - Actor.horizontalCenter other)%num in
  let reach :=
    ((Point.x (Actor.size this) / 2 + Point.x (Actor.size other) / 2)
     * 0.85%Q)%num in
  let after := Actor.repel repulsionForce this other damper in
  (after.2 = true <-> Actor.collideable this = true /\ (abs dist < reach)%num)
  /\ (~ (Actor.collideable other = true
         /\ (abs (Actor.bottom this - Actor.bottom other) < 15)%num) ->
      after.1.1 = this /\ after.1.2 = other)
  /\ (after.2 = false -> after.1.1 = this /\ after.1.2 = other).
Proof.
  intros dist reach after. subst after. unfold Actor.repel. fold dist. fold reach.
  rewrite <- !ltb_lt.
  destruct (Actor.collideable this); cbn [negb].
  2: { split; [|auto]. split; [discriminate | intros [H _]; discriminate]. }
  destruct (abs dist <? reach)%num.
  2: { split; [|auto]. split; [discriminate | intros [_ H]; discriminate]. }
  destruct (Actor.collideable other); cbn [negb].
  2: { split; [|auto]. split; auto. }
  destruct (abs (Actor.bottom this - Actor.bottom other) <? 15)%num.
  2: { split; [|auto]. split; auto. }
  destruct (dist <? 0)%num.
  - split; [split; auto|]. split; [intros H; exfalso; apply H; auto | discriminate].
  - split; [split; auto|]. split; [intros H; exfalso; apply H; auto | discriminate].
Qed.

End Repel.
Section RepelForce.

Local Open Scope Q_scope.

Variable repulsionForce : number -> number -> number.






End RepelForce.

(* ================================================================= *)
(** ** Ground contact *)

Section Grounded.

Variables (fuel : nat) (EPSILON : number) (this : Map.t) (actor : Actor.t).

Lemma iterations_2 : iterations 2%Z = Some 3%nat.
Proof. reflexivity. Qed.

Lemma iterations_1 : iterations 1%Z = Some 2%nat.
Proof. reflexivity. Qed.

(** The two ground probes sample three points and return with three units
    of fuel. *)
Lemma actorIsOnSolidGround_returns (verticalOffset : number) :
  (3 <= fuel)%nat ->
  exists r, Map.actorIsOnSolidGround fuel EPSILON this actor verticalOffset = Some r.
Proof.
  intros Hfuel. unfold Map.actorIsOnSolidGround.
  rewrite (testLine_returns _ _ _ _ 3 fuel iterations_2 Hfuel). eauto.
Qed.

Lemma actorIsOnWalkableGround_returns (verticalOffset : number) :
  (3 <= fuel)%nat ->
  exists r,
    Map.actorIsOnWalkableGround fuel EPSILON this actor verticalOffset = Some r.
Proof.
  intros Hfuel. unfold Map.actorIsOnWalkableGround.
  rewrite (testLine_returns _ _ _ _ 3 fuel iterations_2 Hfuel).
  cbn [mbind option_bind]. eauto.
Qed.

(** The passable probe samples one point per unit of width, and returns
    when the fuel covers them. *)
Lemma actorIsInPassable_returns (k : nat) :
  iterations (Actor.right actor - Actor.left actor)%num = Some k ->
  (k <= fuel)%nat ->
  exists r, Map.actorIsInPassable fuel EPSILON this actor = Some r.
Proof.
  intros Hk Hfuel. unfold Map.actorIsInPassable.
  destruct (match Actor.fallthrough actor with Some _ => _ | None => _ end);
    [eauto|].
  destruct (Map.isPointWalkable _); [eauto|].
  rewrite (testLine_returns _ _ _ _ k fuel Hk Hfuel). eauto.
Qed.

(** C5.  [isGrounded] is [false] for an actor moving up; otherwise [false]
    when it is not on walkable ground; otherwise [true] when it is on solid
    ground; otherwise [false] when it is inside a passable; otherwise
    [true].  It returns as soon as the fuel covers the three samples of the
    ground probes and the samples of the passable probe. *)
Theorem isGrounded_cascade :
  ((Point.y (Actor.velocity actor) < 0)%num ->
   Map.isGrounded fuel EPSILON this actor = Some false)
  /\ (~ (Point.y (Actor.velocity actor) < 0)%num ->
      (Map.actorIsOnWalkableGround fuel EPSILON this actor 0 = Some false ->
       Map.isGrounded fuel EPSILON this actor = Some false)
      /\ (Map.actorIsOnWalkableGround fuel EPSILON this actor 0 = Some true ->
          (Map.actorIsOnSolidGround fuel EPSILON this actor 0 = Some true ->
           Map.isGrounded fuel EPSILON this actor = Some true)
          /\ (Map.actorIsOnSolidGround fuel EPSILON this actor 0 = Some false ->
              (Map.actorIsInPassable fuel EPSILON this actor = Some true ->
               Map.isGrounded fuel EPSILON this actor = Some false)
              /\ (Map.actorIsInPassable fuel EPSILON this actor = Some false ->
                  Map.isGrounded fuel EPSILON this actor = Some true))))
  /\ (forall k : nat,
         iterations (Actor.right actor - Actor.left actor)%num = Some k ->
         (3 <= fuel)%nat -> (k <= fuel)%nat ->
         exists r, Map.isGrounded fuel EPSILON this actor = Some r).
Proof.
  unfold Map.isGrounded. rewrite <- ltb_lt, not_true_iff_false.
  split; [|split].
  - intros ->. reflexivity.
  - intros ->. split; [intros ->; reflexivity|].
    intros ->. cbn [mbind option_bind negb]. split; [intros ->; reflexivity|].
    intros ->. cbn [mbind option_bind]. split; intros ->; reflexivity.
  - intros k Hk H3 Hfuel.
    destruct (_ <? _)%num; [eauto|].
    destruct (actorIsOnWalkableGround_returns 0%Z H3) as [w ->].
    cbn [mbind option_bind]. destruct w; cbn [negb]; [|eauto].
    destruct (actorIsOnSolidGround_returns 0%Z H3) as [s ->].
    cbn [mbind option_bind]. destruct s; [eauto|].
    destruct (actorIsInPassable_returns k Hk Hfuel) as [p ->].
    cbn [mbind option_bind]. destruct p; eauto.
Qed.

End Grounded.

(* ================================================================= *)
(** ** move *)

(** Case analysis on the computations bound in [H], dropping the ones that
    do not return. *)
Ltac bind_cases H :=
  repeat match type of H with
    | context [mbind _ ?m] =>
        destruct m as [[]|] eqn:?; cbn [mbind option_bind negb] in H;
        try discriminate H
    end.

Create HintDb moved.

Section MoveFrame.

Variables (fuel : nat) (EPSILON : number) (this : Map.t).

Lemma moved_refl (a : Actor.t) : moved a a.
Proof. now destruct a. Qed.

Lemma moved_trans (a b c : Actor.t) : moved a b -> moved b c -> moved a c.
Proof. unfold moved. intros -> ->. reflexivity. Qed.

Lemma moved_set_y (a : Actor.t) (v : number) : moved a (Actor.set_y a v).
Proof. reflexivity. Qed.

Lemma moved_set_x (a : Actor.t) (v : number) : moved a (Actor.set_x a v).
Proof. reflexivity. Qed.

#[local] Hint Resolve moved_refl moved_set_y moved_set_x : moved.

Lemma moved_set_y_2 (a : Actor.t) (v w : number) :
  moved a (Actor.set_y (Actor.set_y a v) w).
Proof. reflexivity. Qed.

Lemma moved_set_x_2 (a : Actor.t) (v w : number) :
  moved a (Actor.set_x (Actor.set_x a v) w).
Proof. reflexivity. Qed.

#[local] Hint Resolve moved_set_y_2 moved_set_x_2 : moved.

(** Each part of the loop body changes the position only. *)
Lemma moveY_moved (magnitude : number) (st st' : Map.moving) :
  Map.moveY fuel EPSILON this magnitude st = Some st' ->
  moved (Map.body st) (Map.body st').
Proof.
  unfold Map.moveY. intros H.
  destruct (Map.movingY st); [|injection H as <-; auto with moved].
  destruct (_ <? _)%num; [injection H as <-; cbn; auto with moved|].
  bind_cases H; injection H as <-; cbn; auto with moved.
Qed.

Lemma moveSlope_moved (st st' : Map.moving) :
  Map.moveSlope fuel EPSILON this st = Some st' ->
  moved (Map.body st) (Map.body st').
Proof.
  unfold Map.moveSlope. intros H.
  destruct (negb (Map.movingY st)); [|injection H as <-; auto with moved].
  bind_cases H; injection H as <-; cbn; auto with moved.
Qed.

Lemma moveX_moved (magnitude : number) (st st' : Map.moving) :
  Map.moveX fuel EPSILON this magnitude st = Some st' ->
  moved (Map.body st) (Map.body st').
Proof.
  unfold Map.moveX. intros H.
  destruct (Map.movingX st); [|injection H as <-; auto with moved].
  destruct (_ <? _)%num.
  - destruct (Map.testLine _ _ _ _ _) as [[]|]; cbn [mbind option_bind] in H;
      try discriminate H;
      apply moveSlope_moved in H; cbn in H;
      (eapply moved_trans; [|exact H]); auto with moved.
  - destruct (Map.testLine _ _ _ _ _) as [[]|]; cbn [mbind option_bind] in H;
      try discriminate H;
      apply moveSlope_moved in H; cbn in H;
      (eapply moved_trans; [|exact H]); auto with moved.
Qed.

Lemma move_loop_moved (magnitude : number) (n : nat) :
  forall (i : Z) (st st' : Map.moving),
    Map.move_loop fuel EPSILON n this magnitude i st = Some st' ->
    moved (Map.body st) (Map.body st').
Proof.
  induction n as [|n IH]; intros i st st' H; cbn [Map.move_loop] in H.
  - destruct (_ && _); [discriminate H|]. injection H as <-. apply moved_refl.
  - destruct (_ && _); [|injection H as <-; apply moved_refl].
    destruct (Map.moveY _ _ _ _ _) as [st1|] eqn:HY; [|discriminate H].
    cbn [mbind option_bind] in H.
    destruct (Map.moveX _ _ _ _ _) as [st2|] eqn:HX; [|discriminate H].
    cbn [mbind option_bind] in H.
    apply moveY_moved in HY. apply moveX_moved in HX. apply IH in H.
    eauto using moved_trans.
Qed.


Lemma moved_fields (a a' : Actor.t) :
  moved a a' ->
  Actor.size a' = Actor.size a
  /\ Actor.velocity a' = Actor.velocity a
  /\ Actor.fallthrough a' = Actor.fallthrough a
  /\ Actor.weight a' = Actor.weight a
  /\ Actor.id a' = Actor.id a
  /\ Actor.collideable a' = Actor.collideable a.
Proof. intros ->. repeat split. Qed.

(** The slope detection and the horizontal part leave the vertical flag and
    [movingY] as they are. *)
Lemma moveSlope_vertical (st st' : Map.moving) :
  Map.moveSlope fuel EPSILON this st = Some st' ->
  (Map.collisions st').2 = (Map.collisions st).2
  /\ Map.movingY st' = Map.movingY st.
Proof.
  unfold Map.moveSlope. intros H.
  destruct (negb (Map.movingY st)); [|injection H as <-; auto].
  bind_cases H; injection H as <-; cbn; auto.
Qed.

Lemma moveX_vertical (magnitude : number) (st st' : Map.moving) :
  Map.moveX fuel EPSILON this magnitude st = Some st' ->
  (Map.collisions st').2 = (Map.collisions st).2
  /\ Map.movingY st' = Map.movingY st.
Proof.
  unfold Map.moveX. intros H.
  destruct (Map.movingX st); [|injection H as <-; auto].
  destruct (_ <? _)%num;
    destruct (Map.testLine _ _ _ _ _) as [[]|]; cbn [mbind option_bind] in H;
    try discriminate H; apply moveSlope_vertical in H; exact H.
Qed.

(** For an actor moving up the vertical part only advances [y]. *)
Lemma moveY_upward (magnitude : number) (st : Map.moving) :
  (Point.y (Actor.velocity (Map.body st)) <? 0)%num = true ->
  exists st',
    Map.moveY fuel EPSILON this magnitude st = Some st'
    /\ (Map.collisions st').2 = (Map.collisions st).2
    /\ Map.movingY st' = Map.movingY st.
Proof.
  intros Hup. unfold Map.moveY.
  destruct (Map.movingY st) eqn:HY; [|eauto].
  cbn [Actor.set_y Actor.set_position Actor.velocity]. rewrite Hup.
  eexists. split; [reflexivity|]. cbn. auto.
Qed.

Lemma move_loop_upward (magnitude : number) (n : nat) :
  forall (i : Z) (st st' : Map.moving),
    (Point.y (Actor.velocity (Map.body st)) <? 0)%num = true ->
    Map.move_loop fuel EPSILON n this magnitude i st = Some st' ->
    (Map.collisions st').2 = (Map.collisions st).2.
Proof.
  induction n as [|n IH]; intros i st st' Hup H; cbn [Map.move_loop] in H.
  - destruct (_ && _); [discriminate H|]. now injection H as <-.
  - destruct (_ && _); [|now injection H as <-].
    destruct (moveY_upward magnitude st Hup) as (st1 & HY & Hc1 & _).
    rewrite HY in H. cbn [mbind option_bind] in H.
    destruct (Map.moveX _ _ _ _ _) as [st2|] eqn:HX; [|discriminate H].
    cbn [mbind option_bind] in H.
    apply moveY_moved, moved_fields in HY. destruct HY as (_ & Hv1 & _).
    pose proof (moveX_moved _ _ _ HX) as Hm2.
    apply moved_fields in Hm2. destruct Hm2 as (_ & Hv2 & _).
    apply moveX_vertical in HX. destruct HX as [Hc2 _].
    apply IH in H; [|now rewrite Hv2, Hv1].
    now rewrite H, Hc2, Hc1.
Qed.

End MoveFrame.

Section MoveReturns.

Variables (fuel : nat) (EPSILON : number) (this : Map.t).

Lemma ltb_of_Z_Fin (i : Z) (q : Q) : (of_Z i <? Fin q)%num = (i <? Qceiling q)%Z.
Proof.
  unfold ltb, of_Z. apply eq_true_iff_eq. rewrite Qltb_lt, Z.ltb_lt. split.
  - intros H. rewrite Zlt_Qlt. eapply Qlt_le_trans; [exact H | apply Qle_ceiling].
  - intros H. apply Qle_lt_trans with (inject_Z (Qceiling q - 1)).
    + rewrite <- Zle_Qle. lia.
    + apply Qceiling_lt.
Qed.

(** The loop returns once each iteration does: with a finite [magnitude]
    there are at most [ceil magnitude - i] iterations left. *)
Lemma move_loop_returns (inv : Map.moving -> Prop) (q : Q) :
  (forall st, inv st ->
     exists st1,
       Map.moveY fuel EPSILON this q st = Some st1
       /\ exists st2, Map.moveX fuel EPSILON this q st1 = Some st2 /\ inv st2) ->
  forall (n : nat) (i : Z) (st : Map.moving),
    inv st ->
    Qceiling q - i <= Z.of_nat n ->
    exists st', Map.move_loop fuel EPSILON n this q i st = Some st'.
Proof.
  intros Hbody. induction n as [|n IH]; intros i st Hinv Hn;
    cbn [Map.move_loop]; rewrite ltb_of_Z_Fin.
  - replace (i <? Qceiling q)%Z with false by (symmetry; apply Z.ltb_ge; lia).
    cbn [andb]. eauto.
  - destruct (_ && _); [|eauto].
    destruct (Hbody st Hinv) as (st1 & -> & st2 & HX & Hinv2).
    cbn [mbind option_bind]. rewrite HX. cbn [mbind option_bind].
    apply IH; [exact Hinv2 | lia].
Qed.

Lemma Qsquare_nonneg (x : Q) : (0 <= x * x)%Q.
Proof.
  destruct x as [n d]. unfold Qle. simpl. rewrite Z.mul_1_r.
  apply Z.square_nonneg.
Qed.

(** The magnitude of a finite velocity is a natural number. *)
Lemma magnitude_finite (vx vy : Q) :
  exists M : Z,
    0 <= M
    /\ ceil_sqrt (Fin vx * Fin vx + Fin vy * Fin vy)%num = of_Z M
    /\ M = Z.sqrt_up (Qceiling (vx * vx + vy * vy)).
Proof.
  exists (Z.sqrt_up (Qceiling (vx * vx + vy * vy))).
  split; [apply Z.sqrt_up_nonneg|]. split; [|reflexivity].
  cbn [mul add ceil_sqrt].
  assert (E : (Qred (Qred (vx * vx) + Qred (vy * vy)) == vx * vx + vy * vy)%Q)
    by now rewrite !Qred_correct.
  replace (Qltb _ 0) with false.
  - unfold of_Z. now rewrite (Qceiling_comp _ _ E).
  - symmetry. apply Qltb_ge. rewrite E.
    apply (Qplus_le_compat 0 (vx * vx) 0 (vy * vy)); apply Qsquare_nonneg.
Qed.


(** The passable probe of an actor of finite width [s] samples
    [floor s + 1] points at most, wherever the actor is. *)
Lemma passable_iterations (a : Actor.t) (s : Q) :
  Point.x (Actor.size a) = Fin s ->
  exists k : nat,
    iterations (Actor.right a - Actor.left a)%num = Some k
    /\ (k <= Z.to_nat (Qfloor s + 1))%nat.
Proof.
  intros Hs. unfold Actor.right, Actor.left. rewrite Hs.
  destruct (Actor.x a) as [| |x|]; cbn [add sub iterations];
    try (exists 0%nat; split; [reflexivity | lia]).
  eexists. split; [reflexivity|].
  assert (E : (Qred (Qred (x + s) - x) == s)%Q)
    by (rewrite !Qred_correct; ring).
  rewrite (Qfloor_comp _ _ E). lia.
Qed.

Section FiniteWidth.

Variable s : Q.
Hypothesis fuel_ground : (3 <= fuel)%nat.
Hypothesis fuel_passable : (Z.to_nat (Qfloor s + 1) <= fuel)%nat.

Lemma actorIsInPassable_finite_width (a : Actor.t) :
  Point.x (Actor.size a) = Fin s ->
  exists r, Map.actorIsInPassable fuel EPSILON this a = Some r.
Proof.
  intros Hs. destruct (passable_iterations a s Hs) as (k & Hk & Hle).
  apply (actorIsInPassable_returns fuel EPSILON this a k Hk). lia.
Qed.

Lemma moveY_returns (magnitude : number) (st : Map.moving) :
  Point.x (Actor.size (Map.body st)) = Fin s ->
  exists st', Map.moveY fuel EPSILON this magnitude st = Some st'.
Proof.
  intros Hs. unfold Map.moveY.
  destruct (Map.movingY st); [|eauto].
  destruct (_ <? _)%num; [eauto|].
  destruct (actorIsOnSolidGround_returns fuel EPSILON this
              (Actor.set_y (Map.body st)
                 (Actor.y (Map.body st)
                  + Point.y (Actor.velocity (Map.body st)) / magnitude)%num)
              (- EPSILON)%num fuel_ground) as [solid ->].
  cbn [mbind option_bind]. destruct solid; cbn [mbind option_bind]; [eauto|].
  destruct (actorIsOnWalkableGround_returns fuel EPSILON this
              (Actor.set_y (Map.body st)
                 (Actor.y (Map.body st)
                  + Point.y (Actor.velocity (Map.body st)) / magnitude)%num)
              (- EPSILON)%num fuel_ground) as [walkable ->].
  cbn [mbind option_bind]. destruct walkable; cbn [mbind option_bind]; [|eauto].
  destruct (actorIsInPassable_finite_width
              (Actor.set_y (Map.body st)
                 (Actor.y (Map.body st)
                  + Point.y (Actor.velocity (Map.body st)) / magnitude)%num)
              Hs) as [passable ->].
  cbn [mbind option_bind]. destruct passable; cbn [negb]; eauto.
Qed.

End FiniteWidth.

Lemma moveSlope_returns (st : Map.moving) :
  (3 <= fuel)%nat ->
  exists st', Map.moveSlope fuel EPSILON this st = Some st'.
Proof.
  intros Hfuel. unfold Map.moveSlope.
  destruct (negb (Map.movingY st)); [|eauto].
  destruct (actorIsOnWalkableGround_returns fuel EPSILON this (Map.body st)
              (-1)%Z Hfuel) as [up ->].
  cbn [mbind option_bind]. destruct up; [eauto|].
  destruct (actorIsOnWalkableGround_returns fuel EPSILON this (Map.body st)
              0%Z Hfuel) as [here ->].
  cbn [mbind option_bind]. destruct here; [eauto|].
  destruct (actorIsOnWalkableGround_returns fuel EPSILON this (Map.body st)
              1%Z Hfuel) as [down ->].
  cbn [mbind option_bind]. destruct down; eauto.
Qed.

(** The horizontal part returns when the slope detection does. *)
Lemma moveX_returns (magnitude : number) (st : Map.moving) :
  (2 <= fuel)%nat ->
  (forall st1, Map.movingY st1 = Map.movingY st ->
     exists st', Map.moveSlope fuel EPSILON this st1 = Some st') ->
  exists st', Map.moveX fuel EPSILON this magnitude st = Some st'.
Proof.
  intros Hfuel Hslope. unfold Map.moveX.
  destruct (Map.movingX st); [|eauto].
  destruct (_ <? _)%num;
    rewrite (testLine_returns _ _ _ _ 2 fuel iterations_1 Hfuel);
    cbn [mbind option_bind]; destruct (anyOf _ _); apply Hslope; reflexivity.
Qed.

End MoveReturns.

Section MoveClaims.

Variables (fuel : nat) (EPSILON : number) (this : Map.t) (actor : Actor.t).

(** [move] returns for an actor of finite width and velocity once the fuel
    covers the sub-steps and the samples of the probes. *)
Lemma move_returns (s vx vy : Q) :
  Point.x (Actor.size actor) = Fin s ->
  Actor.velocity actor = Point.new vx vy ->
  (3 <= fuel)%nat ->
  (Z.to_nat (Qfloor s + 1) <= fuel)%nat ->
  Z.sqrt_up (Qceiling (vx * vx + vy * vy)) <= Z.of_nat fuel ->
  exists r, Map.move fuel EPSILON this actor = Some r.
Proof.
  intros Hs Hv H3 Hw HM. unfold Map.move. rewrite Hv. cbn [Point.x Point.y].
  destruct (magnitude_finite vx vy) as (M & HM0 & -> & ->).
  set (M := Z.sqrt_up _) in *.
  destruct (move_loop_returns fuel EPSILON this
              (fun st => Point.x (Actor.size (Map.body st)) = Fin s)
              (inject_Z M)) with (n := fuel) (i := 0)
       (st := {| Map.body := actor; Map.movingX := neqb vx 0%Z;
                 Map.movingY := neqb vy 0%Z; Map.collisions := (false, false) |})
    as [st' Hst']; [| | |change (Fin (inject_Z M)) with (of_Z M) in Hst';
                        rewrite Hst'].
  - intros st Hst.
    destruct (moveY_returns fuel EPSILON this s H3 Hw (inject_Z M) st Hst)
      as [st1 HY].
    exists st1. split; [exact HY|].
    destruct (moveX_returns fuel EPSILON this (inject_Z M) st1) as [st2 HX];
      [lia | intros; apply moveSlope_returns; exact H3 |].
    exists st2. split; [exact HX|].
    apply moveY_moved, moved_fields in HY. apply moveX_moved, moved_fields in HX.
    destruct HY as [HY _], HX as [HX _]. now rewrite HX, HY.
  - exact Hs.
  - rewrite Qceiling_Z. lia.
  - cbn [mbind option_bind]. eauto.
Qed.

(** C10.  [move] writes the actor's position only: the grid, and the
    actor's velocity, size, weight, fallthrough marker, identifier and
    collideable flag are after the call what they were before.  The call
    returns for an actor of finite width and velocity. *)
Theorem move_changes_position_only :
  (forall (this' : Map.t) (actor' : Actor.t) (collisions : bool * bool),
      Map.move fuel EPSILON this actor = Some (this', actor', collisions) ->
      this' = this
      /\ Actor.velocity actor' = Actor.velocity actor
      /\ Actor.size actor' = Actor.size actor
      /\ Actor.weight actor' = Actor.weight actor
      /\ Actor.fallthrough actor' = Actor.fallthrough actor
      /\ Actor.collideable actor' = Actor.collideable actor
      /\ Actor.id actor' = Actor.id actor)
  /\ (forall s vx vy : Q,
         Point.x (Actor.size actor) = Fin s ->
         Actor.velocity actor = Point.new vx vy ->
         (3 <= fuel)%nat ->
         (Z.to_nat (Qfloor s + 1) <= fuel)%nat ->
         Z.sqrt_up (Qceiling (vx * vx + vy * vy)) <= Z.of_nat fuel ->
         exists r, Map.move fuel EPSILON this actor = Some r).
Proof.
  split; [|apply move_returns].
  intros this' actor' collisions H. unfold Map.move in H.
  destruct (Map.move_loop _ _ _ _ _ _ _) as [st|] eqn:Hloop; [|discriminate H].
  cbn [mbind option_bind] in H. injection H as <- <- <-.
  apply move_loop_moved, moved_fields in Hloop. cbn [Map.body] in Hloop.
  tauto.
Qed.

Lemma neqb_negative (v : number) : (v <? 0%Z)%num = true -> neqb v 0%Z = true.
Proof.
  destruct v as [| |q|]; try discriminate; [reflexivity|].
  unfold ltb, neqb, eqb, of_Z. intros H. apply Qltb_lt in H.
  apply negb_true_iff, not_true_iff_false. rewrite Qeq_bool_iff.
  intros E. rewrite E in H. discriminate.
Qed.

(** C8.  For an actor whose vertical velocity is negative, [move] returns
    the vertical collision flag [false]; and it returns for a finite
    velocity once the fuel covers the sub-steps. *)
Theorem move_upward_no_vertical_collision :
  (Point.y (Actor.velocity actor) < 0)%num ->
  (forall r, Map.move fuel EPSILON this actor = Some r -> r.2.2 = false)
  /\ (forall vx vy : Q,
         Actor.velocity actor = Point.new vx vy ->
         (2 <= fuel)%nat ->
         Z.sqrt_up (Qceiling (vx * vx + vy * vy)) <= Z.of_nat fuel ->
         exists r, Map.move fuel EPSILON this actor = Some r).
Proof.
  intros Hup. apply ltb_lt in Hup. split.
  - intros r H. unfold Map.move in H.
    destruct (Map.move_loop _ _ _ _ _ _ _) as [st|] eqn:Hloop; [|discriminate H].
    cbn [mbind option_bind] in H. injection H as <-.
    apply move_loop_upward in Hloop; [|exact Hup]. exact Hloop.
  - intros vx vy Hv H2 HM. unfold Map.move. rewrite Hv in *.
    cbn [Point.x Point.y] in *.
    destruct (magnitude_finite vx vy) as (M & HM0 & -> & ->).
    set (M := Z.sqrt_up _) in *.
    destruct (move_loop_returns fuel EPSILON this
                (fun st =>
                   Actor.velocity (Map.body st) = Point.new vx vy
                   /\ Map.movingY st = true)
                (inject_Z M)) with (n := fuel) (i := 0)
         (st := {| Map.body := actor; Map.movingX := neqb vx 0%Z;
                   Map.movingY := neqb vy 0%Z; Map.collisions := (false, false) |})
      as [st' Hst']; [| | |change (Fin (inject_Z M)) with (of_Z M) in Hst';
                          rewrite Hst'].
    + intros st [Hvel HY].
      destruct (moveY_upward fuel EPSILON this (inject_Z M) st)
        as (st1 & HY1 & _ & HmY); [now rewrite Hvel|].
      exists st1. split; [exact HY1|].
      apply moveY_moved, moved_fields in HY1. destruct HY1 as (_ & Hv1 & _).
      destruct (moveX_returns fuel EPSILON this (inject_Z M) st1) as [st2 HX];
        [exact H2 | |].
      { intros st' Hst'. unfold Map.moveSlope. rewrite Hst', HmY, HY. eauto. }
      exists st2. split; [exact HX|].
      pose proof (moveX_vertical _ _ _ _ _ _ HX) as [_ HmY2].
      apply moveX_moved, moved_fields in HX. destruct HX as (_ & Hv2 & _).
      split; [now rewrite Hv2, Hv1 | now rewrite HmY2, HmY].
    + cbn [Map.body Map.movingY]. split; [exact Hv | now apply neqb_negative].
    + rewrite Qceiling_Z. lia.
    + cbn [mbind option_bind]. eauto.
Qed.

End MoveClaims.

(* ================================================================= *)
(** ** The falling body *)

Section FallingBody.

Local Open Scope Q_scope.

(** Above the first row every point is outside the grid. *)
Lemma getPixelData_above (this : Map.t) (x : number) (q : Q) :
  q < 0 -> Map.getPixelData this x q = Some Map.GroundType.SOLID.
Proof.
  intros Hq. unfold Map.getPixelData. cbn [floor].
  fold (of_Z (Qfloor q)). rewrite (ltb_of_Z (Qfloor q) 0).
  replace (Qfloor q <? 0)%Z with true; [now rewrite orb_true_r|].
  symmetry. apply Z.ltb_lt. rewrite Zlt_Qlt.
  eapply Qle_lt_trans; [apply Qfloor_le | exact Hq].
Qed.






End FallingBody.

(* ================================================================= *)
(** ** The statements at concrete inputs *)

Lemma scenarioGrid_constructed : constructed 10 1 scenarioGrid.
Proof.
  split; [lia|]. split; [lia|]. exists scenarioImage. split; reflexivity.
Qed.


(** C2, as stated, fails: for a predicate that holds at the start point
    only, [testLine] with [steps = 0] calls it at [(NaN, NaN)], not at the
    start point, and returns [false], not the predicate's value at the
    start point. *)
Lemma testLine_zero_steps_misses_start :
  let start := Point.new 1%Z 2%Z in
  let end_ := Point.new 3%Z 4%Z in
  let test := fun x y : number => ((x =? 1%Z) && (y =? 2%Z))%num in
  test (Point.x start) (Point.y start) = true
  /\ Map.testLine_run 1 start end_ test 0%Z = Some (false, [(NaN, NaN)])
  /\ Map.testLine_run 1 start end_ test 0%Z
     <> Some (test (Point.x start) (Point.y start),
              [(Point.x start, Point.y start)]).
Proof.
  cbv zeta. split; [reflexivity|]. split; [reflexivity|].
  change (Map.testLine_run 1 (Point.new 1%Z 2%Z) (Point.new 3%Z 4%Z)
            (fun x y : number => ((x =? 1%Z) && (y =? 2%Z))%num) 0%Z)
    with (Some (false, [(NaN, NaN)])).
  discriminate.
Qed.

Lemma getPixelData_bounds_witness :
  Map.getPixelData scenarioGrid (-1)%Z (1 # 2)%Q = Some Map.GroundType.SOLID
  /\ Map.getPixelData scenarioGrid (15 # 2)%Q (1 # 2)%Q
     = Some Map.GroundType.SOLID.
Proof.
  split.
  - apply (getPixelData_bounds 10 1 scenarioGrid (-1)%Z (1 # 2)%Q
             scenarioGrid_constructed).
    left. reflexivity.
  - destruct (getPixelData_bounds 10 1 scenarioGrid (15 # 2)%Q (1 # 2)%Q
                scenarioGrid_constructed) as [_ Hin].
    destruct Hin as (cx & cy & type & Hx & Hy & _ & _ & Hcell & ->).
    + repeat split; (reflexivity || discriminate).
    + injection Hx as <-. injection Hy as <-. vm_compute in Hcell.
      symmetry. exact Hcell.
Defined.

Lemma construct_decodes_palette_witness :
  (exists e, Map.construct (textureOf 10 1 scenarioImage) = inl e)
  <-> exists k, (k < 10)%nat /\ classify scenarioImage k = None.
Proof.
  exact (proj1 (proj2 (construct_decodes_palette (textureOf 10 1 scenarioImage)
                         scenarioImage 10 eq_refl eq_refl))).
Defined.

Lemma isGrounded_cascade_witness :
  Map.isGrounded 3 (1 # 1000)%Q platformGrid standingBody = Some true
  /\ Map.isGrounded 3 (1 # 1000)%Q scenarioGrid risingBody = Some false.
Proof.
  split.
  - destruct (isGrounded_cascade 3 (1 # 1000)%Q platformGrid standingBody)
      as (_ & Hrest & _).
    assert (Hstill : ~ (Point.y (Actor.velocity standingBody) < 0%Z)%num)
      by (intros H; discriminate H).
    destruct (Hrest Hstill) as [_ Hwalkable].
    destruct (Hwalkable eq_refl) as [_ Hsolid].
    destruct (Hsolid eq_refl) as [_ Hpassable].
    exact (Hpassable eq_refl).
  - exact (proj1 (isGrounded_cascade 3 (1 # 1000)%Q scenarioGrid risingBody)
             eq_refl).
Defined.


Lemma move_upward_no_vertical_collision_witness :
  exists r,
    Map.move 5 (1 # 1000)%Q scenarioGrid risingBody = Some r /\ r.2.2 = false.
Proof.
  destruct (move_upward_no_vertical_collision 5 (1 # 1000)%Q scenarioGrid
              risingBody) as [Hflag Hreturns]; [reflexivity|].
  destruct (Hreturns 0 (-5 # 1))%Q as [r Hr];
    [reflexivity | repeat constructor | discriminate |].
  exists r. split; [exact Hr | apply Hflag; exact Hr].
Defined.


Lemma move_changes_position_only_witness :
  exists r,
    Map.move 5 (1 # 1000)%Q scenarioGrid scenarioBody = Some r
    /\ r.1.1 = scenarioGrid
    /\ Actor.velocity r.1.2 = Actor.velocity scenarioBody
    /\ Actor.size r.1.2 = Actor.size scenarioBody.
Proof.
  destruct (move_changes_position_only 5 (1 # 1000)%Q scenarioGrid scenarioBody)
    as [Hframe Hreturns].
  destruct (Hreturns 2 0 5)%Q as [[[this' actor'] collisions] Hr];
    [reflexivity | reflexivity | repeat constructor | repeat constructor
    | discriminate |].
  exists (this', actor', collisions). split; [exact Hr|].
  destruct (Hframe this' actor' collisions Hr) as (H1 & H2 & H3 & _).
  auto.
Defined.

Lemma repel_returns_and_frame_witness :
  (Actor.repel unitForce leftBody rightBody Actor.default_damper).2 = true.
Proof.
  apply (repel_returns_and_frame unitForce leftBody rightBody
           Actor.default_damper).
  split; reflexivity.
Defined.

(* ================================================================= *)
(** ** More on testLine *)

Section TestLineBounds.

Variables (start end_ : Point.t) (test : number -> number -> bool).

(** With [steps] infinite every iteration samples the same point. *)
Lemma linePoint_infinite_steps (i : Z) :
  0 <= i ->
  Map.linePoint start end_ i PInf = Map.linePoint start end_ 0 PInf.
Proof.
  intros Hi. unfold Map.linePoint.
  assert (H : forall d : number, (d * of_Z i / PInf)%num = (d * of_Z 0 / PInf)%num).
  { intros [| |q|]; try reflexivity; unfold mul, mul_inf, of_Z.
    - destruct (Z.eq_dec i 0) as [->|Hne]; [reflexivity|].
      replace (inject_Z i ?= 0)%Q with Gt; [reflexivity|].
      symmetry. apply Qgt_alt. change 0%Q with (inject_Z 0).
      rewrite <- Zlt_Qlt. lia.
    - destruct (Z.eq_dec i 0) as [->|Hne]; [reflexivity|].
      replace (inject_Z i ?= 0)%Q with Gt; [reflexivity|].
      symmetry. apply Qgt_alt. change 0%Q with (inject_Z 0).
      rewrite <- Zlt_Qlt. lia. }
  now rewrite !H.
Qed.

Lemma testLine_loop_infinite (fuel : nat) :
  forall i : Z,
    0 <= i ->
    Map.testLine_loop fuel start end_ test PInf i
    = match fuel with
      | O => None
      | S _ =>
          let p := Map.linePoint start end_ 0 PInf in
          if test p.1 p.2 then Some (true, [p]) else None
      end.
Proof.
  induction fuel as [|fuel IH]; intros i Hi; cbn [Map.testLine_loop].
  - reflexivity.
  - replace (of_Z i <=? PInf)%num with true by reflexivity.
    rewrite (linePoint_infinite_steps i Hi). cbv zeta.
    destruct (test _ _) eqn:E; [reflexivity|].
    rewrite IH by lia. destruct fuel; [reflexivity|].
    cbv zeta. now rewrite E.
Qed.




(** X2.  When [steps] is [NaN] or negative (or [-Infinity]) the loop
    condition fails at once: [testLine] returns [false] and never calls
    the predicate, whatever the fuel. *)
Theorem testLine_no_iteration (steps : number) (fuel : nat) :
  steps = NaN \/ (steps < 0%Z)%num ->
  Map.testLine_run fuel start end_ test steps = Some (false, []).
Proof.
  intros Hsteps. unfold Map.testLine_run.
  assert (Hcond : (of_Z 0 <=? steps)%num = false).
  { destruct Hsteps as [->|Hneg]; [reflexivity|].
    destruct steps as [| |q|]; try contradiction; [reflexivity|].
    unfold leb, of_Z. apply not_true_iff_false. rewrite Qle_bool_iff.
    apply Qlt_not_le. exact Hneg. }
  destruct fuel; cbn [Map.testLine_loop]; now rewrite Hcond.
Qed.

(** X3.  With [steps = +Infinity] every iteration samples the same point
    (the start point, when the end points are finite): [testLine] returns
    [true] if the predicate holds there, and otherwise never returns. *)
Theorem testLine_infinite_steps :
  let p := Map.linePoint start end_ 0 PInf in
  (test p.1 p.2 = true ->
   forall fuel, Map.testLine (S fuel) start end_ test PInf = Some true)
  /\ (test p.1 p.2 = false ->
      forall fuel, Map.testLine fuel start end_ test PInf = None)
  /\ (forall sx sy ex ey : Q,
         start = Point.new sx sy -> end_ = Point.new ex ey -> isAt p sx sy).
Proof.
  intros p. unfold Map.testLine, Map.testLine_run. split; [|split].
  - intros Hp fuel. rewrite testLine_loop_infinite by lia. cbv zeta.
    fold p. now rewrite Hp.
  - intros Hp fuel. rewrite testLine_loop_infinite by lia.
    destruct fuel; [reflexivity|]. cbv zeta. fold p. now rewrite Hp.
  - intros sx sy ex ey -> ->. unfold p, Map.linePoint, isAt, same.
    cbn [Point.x Point.y sub mul div add of_Z fst snd].
    rewrite !Qred_correct. split; ring.
Qed.

End TestLineBounds.

(* ================================================================= *)
(** ** More on construction and point queries *)

Section ConstructThenQuery.

(** Within a grid of integer dimensions the query reads the cell at the
    floored coordinates. *)
Lemma getPixelData_inside (this : Map.t) (w h : Z) (x y : number) (cx cy : Z) :
  Map.mapWidth this = of_Z w ->
  Map.mapHeight this = of_Z h ->
  floor x = of_Z cx ->
  floor y = of_Z cy ->
  0 <= cx < w ->
  0 <= cy < h ->
  Map.getPixelData this x y = Map.mapData this !! Z.to_nat (cy * w + cx).
Proof.
  intros Hw Hh Hx Hy Hcx Hcy. unfold Map.getPixelData.
  rewrite Hw, Hh, Hx, Hy. unfold geb. rewrite !ltb_of_Z, !leb_of_Z.
  replace (cx <? 0)%Z with false by (symmetry; apply Z.ltb_ge; lia).
  replace (cy <? 0)%Z with false by (symmetry; apply Z.ltb_ge; lia).
  replace (w <=? cx)%Z with false by (symmetry; apply Z.leb_gt; lia).
  replace (h <=? cy)%Z with false by (symmetry; apply Z.leb_gt; lia).
  assert (Hrow0 : 0 <= cy * w) by (apply Z.mul_nonneg_nonneg; lia).
  cbn [orb]. rewrite mul_of_Z, add_of_Z, index_of_Z by lia.
  reflexivity.
Qed.

(** The else branch of the query, at integer coordinates within the grid. *)
Lemma getPixelData_inside_cell (this : Map.t) (w h cx cy : Z) :
  Map.mapWidth this = of_Z w ->
  0 <= cx < w ->
  0 <= cy < h ->
  (i ← index (of_Z cy * Map.mapWidth this + of_Z cx)%num; Map.mapData this !! i)
  = Map.mapData this !! Z.to_nat (cy * w + cx).
Proof.
  intros Hw Hcx Hcy.
  assert (Hrow0 : 0 <= cy * w) by (apply Z.mul_nonneg_nonneg; lia).
  rewrite Hw, mul_of_Z, add_of_Z, index_of_Z by lia. reflexivity.
Qed.

Lemma cell_index_bound (w h cx cy : Z) :
  0 <= cx < w -> 0 <= cy < h -> 0 <= cy * w + cx < w * h.
Proof.
  intros Hcx Hcy.
  assert (0 <= cy * w) by (apply Z.mul_nonneg_nonneg; lia).
  assert (cy * w <= (h - 1) * w) by (apply Z.mul_le_mono_nonneg_r; lia).
  lia.
Qed.

(** X5.  Decoding an image and then querying a point returns the ground
    type the palette gives the pixel under the point: for a point whose
    floored coordinates are column [cx] and row [cy] of the image, the
    query is the classification of pixel [cy * w + cx]. *)
Theorem construct_then_query (w h : Z) (data : list Z) (m : Map.t)
    (x y : number) (cx cy : Z) :
  length data = Z.to_nat (4 * w * h) ->
  Map.construct (textureOf w h data) = inr m ->
  floor x = of_Z cx ->
  floor y = of_Z cy ->
  0 <= cx < w ->
  0 <= cy < h ->
  Map.getPixelData m x y = classify data (Z.to_nat (cy * w + cx))
  /\ is_Some (Map.getPixelData m x y).
Proof.
  intros Hlen Hm Hx Hy Hcx Hcy.
  pose proof (cell_index_bound w h cx cy Hcx Hcy) as Hk.
  pose proof (construct_outcome (textureOf w h data) data (Z.to_nat (w * h))
                eq_refl) as H.
  rewrite Hm in H. destruct H as (Hw & Hh & _ & Hcells); [rewrite Hlen; lia|].
  rewrite (getPixelData_inside m w h x y cx cy Hw Hh Hx Hy Hcx Hcy).
  destruct (Hcells (Z.to_nat (cy * w + cx))) as (type & Hc & Hcell); [lia|].
  split; [rewrite Hc; exact Hcell | exists type; exact Hcell].
Qed.


Lemma groundTypeOf_in (r g b : Map.element) (type : Map.GroundType.t) :
  Map.groundTypeOf r g b = Some type -> type ∈ groundTypes.
Proof.
  unfold Map.groundTypeOf. intros H. apply list_elem_of_In.
  repeat (destruct (_ && _); [injection H as <-; simpl; tauto|]).
  discriminate H.
Qed.

Lemma outside_cond (this : Map.t) (x y : number) :
  ((floor x <? 0%Z)%num || (floor y <? 0%Z)%num
   || (floor x >=? Map.mapWidth this)%num
   || (floor y >=? Map.mapHeight this)%num) = true
  <-> outside this x y.
Proof.
  unfold outside, geb. rewrite !orb_true_iff, !ltb_lt, !leb_le. tauto.
Qed.

(** The cells of a constructed grid hold ground types of the palette. *)
Lemma constructed_cells (w h : Z) (m : Map.t) (k : nat)
    (type : Map.GroundType.t) :
  constructed w h m ->
  Map.mapData m !! k = Some type ->
  type ∈ groundTypes.
Proof.
  intros (Hw0 & Hh0 & data & Hdata & Hm) Hk.
  pose proof (construct_outcome (textureOf w h data) data (Z.to_nat (w * h))
                eq_refl) as H.
  rewrite Hm in H. destruct H as (_ & _ & Hlen & Hcells); [rewrite Hdata; lia|].
  pose proof (lookup_lt_Some _ _ _ Hk) as Hlt.
  destruct (Hcells k) as (type' & Hc & Hk'); [rewrite <- Hlen; exact Hlt|].
  pose proof (eq_trans (eq_sym Hk) Hk') as E. injection E as ->.
  exact (groundTypeOf_in _ _ _ _ Hc).
Qed.

Lemma getPixelData_groundType (w h : Z) (m : Map.t) (x y : number)
    (type : Map.GroundType.t) :
  constructed w h m ->
  Map.getPixelData m x y = Some type ->
  type ∈ groundTypes.
Proof.
  intros Hm. unfold Map.getPixelData. destruct (_ || _).
  - intros [= <-]. apply list_elem_of_In. simpl. tauto.
  - intros Hq. destruct (index _) as [i|]; [|discriminate Hq].
    exact (constructed_cells w h m i type Hm Hq).
Qed.

(** X4.  A query on a constructed grid gives one of the eight ground types
    of the palette, or nothing; and it gives nothing only when a
    coordinate is [NaN]. *)
Theorem query_gives_palette_type (w h : Z) (m : Map.t) (x y : number) :
  constructed w h m ->
  (forall type, Map.getPixelData m x y = Some type -> type ∈ groundTypes)
  /\ (Map.getPixelData m x y = None -> x = NaN \/ y = NaN).
Proof.
  intros Hm. pose proof (constructed_shape w h m Hm) as (Hw & Hh & Hlen).
  split; [intros type; apply (getPixelData_groundType w h m x y type Hm)|].
  unfold Map.getPixelData.
  destruct (_ || _) eqn:Hcond; [discriminate|].
  intros Hnone. apply not_true_iff_false in Hcond.
  rewrite outside_cond in Hcond. unfold outside in Hcond.
  rewrite Hw, Hh in Hcond.
  destruct x as [| |qx|]; [auto | exfalso; apply Hcond; left; exact I | |
                            exfalso; apply Hcond; right; right; left; exact I].
  destruct y as [| |qy|]; [auto | exfalso; apply Hcond; right; left; exact I | |
                            exfalso; apply Hcond; right; right; right; exact I].
  exfalso. cbn [floor] in Hcond, Hnone.
  fold (of_Z (Qfloor qx)) in Hcond. fold (of_Z (Qfloor qy)) in Hcond.
  rewrite !lt_of_Z, !le_of_Z in Hcond.
  assert (Hcx : 0 <= Qfloor qx < w) by lia.
  assert (Hcy : 0 <= Qfloor qy < h) by lia.
  pose proof (getPixelData_inside_cell m w h _ _ Hw Hcx Hcy) as E.
  pose proof (eq_trans (eq_sym E) Hnone) as Hlook.
  apply lookup_ge_None in Hlook.
  pose proof (cell_index_bound w h _ _ Hcx Hcy). lia.
Qed.


Lemma colour_offsets (i : nat) :
  (i mod 4 = 0)%nat ->
  (i mod 4 <> 3)%nat /\ ((i + 1) mod 4 <> 3)%nat /\ ((i + 2) mod 4 <> 3)%nat.
Proof.
  intros Hi. pose proof (Nat.div_mod_eq i 4) as E. rewrite Hi in E.
  split; [lia|].
  replace (i + 1)%nat with (1 + (i / 4) * 4)%nat by lia.
  replace (i + 2)%nat with (2 + (i / 4) * 4)%nat by lia.
  rewrite !Nat.Div0.mod_add. split; discriminate.
Qed.

(** The decoding loop reads three bytes at each offset it visits. *)
Lemma decode_same_colours (mapWidth : number) (data data' : list Z)
    (offsets : list nat) :
  Forall (fun i => (i mod 4 = 0)%nat) offsets ->
  (forall i, (i mod 4 <> 3)%nat -> data !! i = data' !! i) ->
  forall mapData,
    Map.decode mapWidth data offsets mapData
    = Map.decode mapWidth data' offsets mapData.
Proof.
  intros Hoffsets Hsame. induction Hoffsets as [|i rest Hi _ IH];
    intros mapData; cbn [Map.decode]; [reflexivity|].
  destruct (colour_offsets i Hi) as (H0 & H1 & H2).
  rewrite <- (Hsame i H0), <- (Hsame (i + 1)%nat H1), <- (Hsame (i + 2)%nat H2).
  destruct (Map.groundTypeOf _ _ _); [apply IH | reflexivity].
Qed.

Lemma pixelOffsets_multiples (len : nat) :
  Forall (fun i => (i mod 4 = 0)%nat) (Map.pixelOffsets len).
Proof.
  unfold Map.pixelOffsets. apply Forall_fmap, Forall_forall.
  intros k _. change ((4 * k) mod 4 = 0)%nat.
  rewrite (Nat.mul_comm 4 k). apply Nat.Div0.mod_mul.
Qed.

(** X6.  The constructor ignores the alpha channel: two images of the same
    length that agree on every red, green and blue byte (every index that
    is not [3] modulo [4]) give the same grid, or the same error. *)
Theorem construct_ignores_alpha (tex : Map.Texture) (data data' : list Z) :
  length data = length data' ->
  (forall i, (i mod 4 <> 3)%nat -> data !! i = data' !! i) ->
  Map.construct (withData tex data) = Map.construct (withData tex data').
Proof.
  intros Hlen Hsame. unfold Map.construct, withData.
  cbn [Map.imageData Map.width Map.height]. rewrite <- Hlen.
  rewrite (decode_same_colours _ data data' _ (pixelOffsets_multiples _) Hsame).
  reflexivity.
Qed.

(** X7.  After [destroy] the grid keeps its dimensions and loses its data:
    a query outside the dimensions still gives [SOLID], every other query
    gives nothing, so that no flag test holds of it. *)
Theorem destroy_clears_cells (this : Map.t) (x y : number) :
  (outside this x y ->
   Map.getPixelData (Map.destroy this) x y = Some Map.GroundType.SOLID)
  /\ (~ outside this x y ->
      Map.getPixelData (Map.destroy this) x y = None
      /\ Map.isSolid (Map.getPixelData (Map.destroy this) x y) = false
      /\ Map.isWalkable (Map.getPixelData (Map.destroy this) x y) = false
      /\ Map.isPointWalkable (Map.getPixelData (Map.destroy this) x y) = false
      /\ Map.isWalled (Map.getPixelData (Map.destroy this) x y) = false
      /\ Map.isPassable (Map.getPixelData (Map.destroy this) x y) = false).
Proof.
  assert (Hnone : ~ outside this x y ->
                  Map.getPixelData (Map.destroy this) x y = None).
  { intros Hin. rewrite <- outside_cond in Hin. apply not_true_iff_false in Hin.
    unfold Map.getPixelData, Map.destroy. cbn [Map.mapWidth Map.mapHeight Map.mapData].
    rewrite Hin. destruct (index _); reflexivity. }
  split.
  - intros Hout. rewrite <- outside_cond in Hout.
    unfold Map.getPixelData, Map.destroy. cbn [Map.mapWidth Map.mapHeight].
    now rewrite Hout.
  - intros Hin. rewrite (Hnone Hin). repeat split.
Qed.

End ConstructThenQuery.

(* ================================================================= *)
(** ** More on ground contact *)

Section GroundContact.

Variables (fuel : nat) (EPSILON : number) (this : Map.t).

(** Rows above the first one and from the height on are outside the grid,
    whatever the column. *)
Lemma getPixelData_outside_rows (h : Z) (x : number) (q : Q) :
  Map.mapHeight this = of_Z h ->
  (q < 0)%Q \/ (inject_Z h <= q)%Q ->
  Map.getPixelData this x q = Some Map.GroundType.SOLID.
Proof.
  intros Hh [Hq|Hq]; [now apply getPixelData_above|].
  unfold Map.getPixelData. rewrite Hh. cbn [floor].
  fold (of_Z (Qfloor q)). unfold geb. rewrite (leb_of_Z h (Qfloor q)).
  replace (h <=? Qfloor q)%Z with true; [now rewrite orb_true_r|].
  symmetry. apply Z.leb_le. apply Qfloor_resp_le in Hq.
  now rewrite Qfloor_Z in Hq.
Qed.

(** The first sample of a ground probe is at the probe's height. *)
Lemma ground_probe_first_sample (test : number -> number -> bool)
    (start end_ : Point.t) (q : Q) :
  Point.y start = Fin q ->
  Point.y end_ = Fin q ->
  (forall (x : number) (q' : Q), (q' == q)%Q -> test x q' = true) ->
  Map.testLine (S fuel) start end_ test 2%Z = Some true.
Proof.
  intros Hs He Htest. unfold Map.testLine, Map.testLine_run.
  cbn [Map.testLine_loop].
  replace (0%Z <=? 2%Z)%num with true by reflexivity.
  unfold Map.linePoint. rewrite Hs, He. cbn [fst snd].
  pose proof (sample_finite q q 0 2 ltac:(lia)) as Hy.
  destruct (Fin q + (Fin q - Fin q) * 0%Z / 2%Z)%num as [| |y|] eqn:Ey;
    try contradiction.
  unfold same in Hy. rewrite Htest; [reflexivity|].
  rewrite Hy. unfold Qdiv. ring.
Qed.

(** X8.  The region outside the grid's rows is ground: an actor whose
    ground probe (its bottom plus the offset) lies above the first row or
    at or below the end of the last row is on solid and on walkable
    ground, and with offset [0] it is grounded unless it moves up. *)
Theorem outside_rows_is_ground (actor : Actor.t) (verticalOffset : number)
    (h : Z) (q : Q) :
  Map.mapHeight this = of_Z h ->
  (Actor.bottom actor + verticalOffset)%num = Fin q ->
  (q < 0)%Q \/ (inject_Z h <= q)%Q ->
  Map.actorIsOnSolidGround (S fuel) EPSILON this actor verticalOffset = Some true
  /\ Map.actorIsOnWalkableGround (S fuel) EPSILON this actor verticalOffset
     = Some true
  /\ (verticalOffset = of_Z 0 ->
      ~ (Point.y (Actor.velocity actor) < 0%Z)%num ->
      Map.isGrounded (S fuel) EPSILON this actor = Some true).
Proof.
  intros Hh Hb Hq.
  assert (Hout : forall (x : number) (q' : Q),
             (q' == q)%Q ->
             Map.getPixelData this x q' = Some Map.GroundType.SOLID).
  { intros x q' E. apply (getPixelData_outside_rows h); [exact Hh|].
    rewrite E. exact Hq. }
  assert (Hsolid :
    Map.actorIsOnSolidGround (S fuel) EPSILON this actor verticalOffset
    = Some true).
  { unfold Map.actorIsOnSolidGround.
    apply (ground_probe_first_sample _ _ _ q); cbn [Point.y]; try exact Hb.
    intros x q' E. now rewrite (Hout x q' E). }
  assert (Hwalkable :
    Map.actorIsOnWalkableGround (S fuel) EPSILON this actor verticalOffset
    = Some true).
  { unfold Map.actorIsOnWalkableGround.
    rewrite (ground_probe_first_sample _ _ _ q); cbn [Point.y]; try exact Hb.
    - reflexivity.
    - intros x q' E. now rewrite (Hout x q' E). }
  split; [exact Hsolid|]. split; [exact Hwalkable|].
  intros -> Hup. unfold Map.isGrounded.
  rewrite <- ltb_lt in Hup. apply not_true_iff_false in Hup.
  now rewrite Hup, Hwalkable, Hsolid.
Qed.


(** A hit of one predicate is a hit of every predicate it implies. *)
Lemma testLine_loop_implies (test1 test2 : number -> number -> bool)
    (start end_ : Point.t) (steps : number) :
  (forall x y, test1 x y = true -> test2 x y = true) ->
  forall (n : nat) (i : Z) (calls : list (number * number)),
    Map.testLine_loop n start end_ test1 steps i = Some (true, calls) ->
    exists calls',
      Map.testLine_loop n start end_ test2 steps i = Some (true, calls').
Proof.
  intros Himp. induction n as [|n IH]; intros i calls H;
    cbn [Map.testLine_loop] in *; destruct (_ <=? _)%num; try discriminate H.
  destruct (test1 _ _) eqn:H1.
  - rewrite (Himp _ _ H1). eauto.
  - destruct (Map.testLine_loop n start end_ test1 steps (i + 1))
      as [[hit calls1]|] eqn:Hrest; [|discriminate H].
    cbn [mbind option_bind fst snd] in H. injection H as -> _.
    destruct (IH _ _ Hrest) as [calls2 ->].
    cbn [mbind option_bind fst snd]. destruct (test2 _ _); eauto.
Qed.

Lemma testLine_implies (test1 test2 : number -> number -> bool)
    (start end_ : Point.t) (steps : number) :
  (forall x y, test1 x y = true -> test2 x y = true) ->
  Map.testLine fuel start end_ test1 steps = Some true ->
  Map.testLine fuel start end_ test2 steps = Some true.
Proof.
  intros Himp. unfold Map.testLine, Map.testLine_run.
  destruct (Map.testLine_loop fuel start end_ test1 steps 0)
    as [[hit calls]|] eqn:H; [|discriminate].
  cbn [mbind option_bind fst]. intros [= ->].
  destruct (testLine_loop_implies test1 test2 start end_ steps Himp _ _ _ H)
    as [calls' ->].
  reflexivity.
Qed.

(** Among the ground types of the palette the solid ones are walkable and
    walled. *)
Lemma solid_groundType (type : Map.GroundType.t) :
  type ∈ groundTypes ->
  Map.isSolid (Some type) = true ->
  Map.isWalkable (Some type) = true /\ Map.isWalled (Some type) = true.
Proof.
  intros Hin. apply list_elem_of_In in Hin. simpl in Hin.
  repeat (destruct Hin as [<-|Hin]; [vm_compute; intuition discriminate|]).
  contradiction.
Qed.

(** X9.  On a constructed grid solid ground is walkable ground: an actor
    the solid probe finds on solid ground is found on walkable ground by
    the walkable probe, and so an actor on solid ground that does not move
    up is grounded. *)
Theorem solid_ground_is_walkable (w h : Z) (actor : Actor.t)
    (verticalOffset : number) :
  constructed w h this ->
  Map.actorIsOnSolidGround fuel EPSILON this actor verticalOffset = Some true ->
  Map.actorIsOnWalkableGround fuel EPSILON this actor verticalOffset = Some true
  /\ (verticalOffset = of_Z 0 ->
      ~ (Point.y (Actor.velocity actor) < 0%Z)%num ->
      Map.isGrounded fuel EPSILON this actor = Some true).
Proof.
  intros Hm Hsolid.
  assert (Hwalkable :
    Map.actorIsOnWalkableGround fuel EPSILON this actor verticalOffset
    = Some true).
  { assert (Himp : forall x y,
               Map.isSolid (Map.getPixelData this x y) = true ->
               Map.isWalkable (Map.getPixelData this x y) = true).
    { intros x y Hs. destruct (Map.getPixelData this x y) as [type|] eqn:Hq;
        [|discriminate Hs].
      apply (solid_groundType type); [|exact Hs].
      exact (getPixelData_groundType w h this x y type Hm Hq). }
    unfold Map.actorIsOnWalkableGround, Map.actorIsOnSolidGround in *.
    rewrite (testLine_implies _ _ _ _ _ Himp Hsolid). reflexivity. }
  split; [exact Hwalkable|].
  intros -> Hup. unfold Map.isGrounded.
  rewrite <- ltb_lt in Hup. apply not_true_iff_false in Hup.
  now rewrite Hup, Hwalkable, Hsolid.
Qed.

End GroundContact.

(* ================================================================= *)
(** ** More on move *)

Section MoveSteps.

Variables (fuel : nat) (EPSILON : number) (this : Map.t) (magnitude : number).

(** What the vertical part does: nothing, an advance, or an advance and a
    snap with the vertical flag set. *)
Lemma moveY_cases (st st' : Map.moving) :
  Map.moveY fuel EPSILON this magnitude st = Some st' ->
  (Map.movingY st = false /\ st' = st)
  \/ (Map.movingY st = true
      /\ st' = {| Map.body := advanceY magnitude (Map.body st);
                  Map.movingX := Map.movingX st; Map.movingY := true;
                  Map.collisions := Map.collisions st |})
  \/ (Map.movingY st = true
      /\ (Point.y (Actor.velocity (Map.body st)) <? 0%Z)%num = false
      /\ st' = {| Map.body :=
                    Actor.set_y (advanceY magnitude (Map.body st))
                      (floor (Actor.y (advanceY magnitude (Map.body st))
                              - EPSILON)%num);
                  Map.movingX := Map.movingX st; Map.movingY := false;
                  Map.collisions := ((Map.collisions st).1, true) |}).
Proof.
  unfold Map.moveY. fold (advanceY magnitude (Map.body st)). intros H.
  destruct (Map.movingY st); [|left; injection H as <-; auto].
  right.
  change (Actor.velocity (advanceY magnitude (Map.body st)))
    with (Actor.velocity (Map.body st)) in H.
  destruct (_ <? _)%num eqn:Hup; [left; injection H as <-; auto|].
  bind_cases H; injection H as <-; auto.
Qed.

(** What the slope detection does: nothing, or one unit up or down for an
    actor that no longer moves vertically. *)
Lemma moveSlope_cases (st st' : Map.moving) :
  Map.moveSlope fuel EPSILON this st = Some st' ->
  st' = st
  \/ (Map.movingY st = false
      /\ (st' = withBody st (Actor.set_y (Map.body st)
                               (Actor.y (Map.body st) - 1%Z)%num)
          \/ st' = withBody st (Actor.set_y (Map.body st)
                                  (Actor.y (Map.body st) + 1%Z)%num))).
Proof.
  unfold Map.moveSlope, withBody. intros H.
  destruct (Map.movingY st); cbn [negb] in H; [injection H as <-; auto|].
  bind_cases H; injection H as <-; auto.
Qed.

(** What the horizontal part does before the slope detection. *)
Lemma moveX_cases (st st' : Map.moving) :
  Map.moveX fuel EPSILON this magnitude st = Some st' ->
  (Map.movingX st = false /\ st' = st)
  \/ (Map.movingX st = true
      /\ exists st1,
           Map.moveSlope fuel EPSILON this st1 = Some st'
           /\ (st1 = {| Map.body := advanceX magnitude (Map.body st);
                        Map.movingX := true; Map.movingY := Map.movingY st;
                        Map.collisions := Map.collisions st |}
               \/ ((Point.x (Actor.velocity (Map.body st)) <? 0%Z)%num = true
                   /\ st1 = {| Map.body :=
                                 Actor.set_x (advanceX magnitude (Map.body st))
                                   (ceil (Actor.x (advanceX magnitude (Map.body st))));
                               Map.movingX := false;
                               Map.movingY := Map.movingY st;
                               Map.collisions := (true, (Map.collisions st).2) |})
               \/ ((Point.x (Actor.velocity (Map.body st)) <? 0%Z)%num = false
                   /\ st1 = {| Map.body :=
                                 Actor.set_x (advanceX magnitude (Map.body st))
                                   (floor (Actor.x (advanceX magnitude (Map.body st))
                                           - EPSILON)%num);
                               Map.movingX := false;
                               Map.movingY := Map.movingY st;
                               Map.collisions := (true, (Map.collisions st).2) |}))).
Proof.
  unfold Map.moveX. fold (advanceX magnitude (Map.body st)). intros H.
  destruct (Map.movingX st); [|left; injection H as <-; auto].
  right. split; [reflexivity|].
  change (Actor.velocity (advanceX magnitude (Map.body st)))
    with (Actor.velocity (Map.body st)) in H.
  destruct (_ <? _)%num eqn:Hleft;
    destruct (Map.testLine _ _ _ _ _) as [[]|]; cbn [mbind option_bind] in H;
    try discriminate H; eexists; (split; [exact H|]); auto.
Qed.

(** An invariant of the loop body is an invariant of the loop; at the end
    the loop condition is false. *)
Lemma move_loop_indexed (P : Z -> Map.moving -> Prop) :
  (forall i st st1 st2,
      P i st ->
      (of_Z i <? magnitude)%num = true ->
      Map.moveY fuel EPSILON this magnitude st = Some st1 ->
      Map.moveX fuel EPSILON this magnitude st1 = Some st2 ->
      P (i + 1) st2) ->
  forall (n : nat) (i : Z) (st st' : Map.moving),
    P i st ->
    Map.move_loop fuel EPSILON n this magnitude i st = Some st' ->
    exists j,
      i <= j /\ P j st'
      /\ ((of_Z j <? magnitude)%num
          && (Map.movingX st' || Map.movingY st')) = false.
Proof.
  intros Hstep. induction n as [|n IH]; intros i st st' HP H;
    cbn [Map.move_loop] in H.
  - destruct (_ && _) eqn:Hcond; [discriminate H|]. injection H as <-.
    exists i. split; [lia|]. auto.
  - destruct (_ && _) eqn:Hcond.
    + destruct (Map.moveY _ _ _ _ _) as [st1|] eqn:HY; [|discriminate H].
      cbn [mbind option_bind] in H.
      destruct (Map.moveX _ _ _ _ _) as [st2|] eqn:HX; [|discriminate H].
      cbn [mbind option_bind] in H.
      apply andb_true_iff in Hcond. destruct Hcond as [Hi _].
      destruct (IH (i + 1) st2 st' (Hstep i st st1 st2 HP Hi HY HX) H)
        as (j & Hj & HPj & Hend).
      exists j. split; [lia|]. auto.
    + injection H as <-. exists i. split; [lia|]. auto.
Qed.

End MoveSteps.

Section MoveFlags.

Variables (fuel : nat) (EPSILON : number) (this : Map.t) (actor : Actor.t).

Lemma add_NaN_l (x : number) : (NaN + x)%num = NaN.
Proof. reflexivity. Qed.

Lemma mul_NaN (x : number) : (x * x)%num = NaN -> x = NaN.
Proof.
  destruct x as [| |q|]; try reflexivity; try discriminate.
Qed.

(** A magnitude some integer is below comes from a velocity without
    [NaN]. *)
Lemma magnitude_of_numbers (vx vy : number) (i : Z) :
  (of_Z i <? ceil_sqrt (vx * vx + vy * vy))%num = true ->
  vx <> NaN /\ vy <> NaN.
Proof.
  intros H. split; intros ->.
  - discriminate H.
  - rewrite add_NaN_r in H. discriminate H.
Qed.

Lemma positive_number (v : number) :
  v <> NaN -> (v <? 0%Z)%num = false -> neqb v 0%Z = true -> (0%Z < v)%num.
Proof.
  destruct v as [| |q|]; try easy.
  unfold ltb, neqb, eqb, num_lt, of_Z. intros _ Hneg Hne.
  apply Qltb_ge in Hneg. apply negb_true_iff, not_true_iff_false in Hne.
  rewrite Qeq_bool_iff in Hne.
  destruct (Qle_lt_or_eq _ _ Hneg) as [Hlt|Heq]; [exact Hlt|].
  exfalso. apply Hne. symmetry. exact Heq.
Qed.

Lemma nonzero_number (v : number) :
  v <> NaN -> neqb v 0%Z = true -> (v < 0%Z)%num \/ (0%Z < v)%num.
Proof.
  intros Hnan Hne. destruct (v <? 0%Z)%num eqn:Hneg.
  - left. now apply ltb_lt.
  - right. now apply positive_number.
Qed.

(** X10.  A velocity with a [NaN] component, or with both components
    zero, makes no sub-step: [move] returns at once, whatever the fuel,
    with the actor as it was and both flags [false]. *)
Theorem move_at_rest :
  Point.x (Actor.velocity actor) = NaN
  \/ Point.y (Actor.velocity actor) = NaN
  \/ (same (Point.x (Actor.velocity actor)) 0%Z
      /\ same (Point.y (Actor.velocity actor)) 0%Z) ->
  Map.move fuel EPSILON this actor = Some (this, actor, (false, false)).
Proof.
  intros Hv. unfold Map.move.
  assert (Hcond :
    (of_Z 0 <? ceil_sqrt (Point.x (Actor.velocity actor)
                          * Point.x (Actor.velocity actor)
                          + Point.y (Actor.velocity actor)
                            * Point.y (Actor.velocity actor)))%num = false).
  { destruct Hv as [->|[->|[Hx Hy]]]; [reflexivity | | ].
    - now rewrite add_NaN_r.
    - destruct (Point.x (Actor.velocity actor)) as [| |vx|]; try contradiction.
      destruct (Point.y (Actor.velocity actor)) as [| |vy|]; try contradiction.
      unfold same, of_Z in Hx, Hy.
      destruct (magnitude_finite vx vy) as (M & _ & -> & ->).
      assert (E : (vx * vx + vy * vy == 0)%Q) by (rewrite Hx, Hy; reflexivity).
      rewrite (Qceiling_comp _ _ E). reflexivity. }
  destruct fuel; cbn [Map.move_loop]; rewrite Hcond; reflexivity.
Qed.

(** X11.  The flags tell the direction of motion: [move] sets the
    vertical flag only for an actor moving down, and the horizontal flag
    only for an actor moving left or right; an actor whose horizontal
    velocity is zero keeps its [x]. *)
Theorem collision_needs_motion (this' : Map.t) (actor' : Actor.t)
    (flags : bool * bool) :
  Map.move fuel EPSILON this actor = Some (this', actor', flags) ->
  (flags.2 = true -> (0%Z < Point.y (Actor.velocity actor))%num)
  /\ (flags.1 = true ->
      (Point.x (Actor.velocity actor) < 0%Z)%num
      \/ (0%Z < Point.x (Actor.velocity actor))%num)
  /\ ((Point.x (Actor.velocity actor) =? 0%Z)%num = true ->
      Actor.x actor' = Actor.x actor).
Proof.
  unfold Map.move. cbv zeta.
  set (vx := Point.x (Actor.velocity actor)).
  set (vy := Point.y (Actor.velocity actor)).
  set (magnitude := ceil_sqrt (vx * vx + vy * vy)).
  intros H.
  destruct (Map.move_loop _ _ _ _ _ _ _) as [st|] eqn:Hloop; [|discriminate H].
  cbn [mbind option_bind] in H. injection H as _ <- <-.
  pose (P := fun (_ : Z) (st : Map.moving) =>
    Actor.velocity (Map.body st) = Actor.velocity actor
    /\ ((Map.collisions st).2 = true -> (0%Z < vy)%num)
    /\ (Map.movingY st = true -> neqb vy 0%Z = true)
    /\ ((Map.collisions st).1 = true -> (vx < 0%Z)%num \/ (0%Z < vx)%num)
    /\ (Map.movingX st = true -> neqb vx 0%Z = true)
    /\ (neqb vx 0%Z = false -> Actor.x (Map.body st) = Actor.x actor)).
  destruct (move_loop_indexed fuel EPSILON this magnitude P) with
    (n := fuel) (i := 0)
    (st := {| Map.body := actor; Map.movingX := neqb vx 0%Z;
              Map.movingY := neqb vy 0%Z; Map.collisions := (false, false) |})
    (st' := st) as (j & _ & HP & _); [| |exact Hloop|].
  - (* the loop body keeps the invariant *)
    clear st Hloop. intros i st st1 st2 (Hvel & HV & HMY & HH & HMX & HX0) Hi HY HX.
    destruct (magnitude_of_numbers vx vy i Hi) as [Hvx Hvy].
    assert (P i st1) as (Hvel1 & HV1 & HMY1 & HH1 & HMX1 & HX01).
    { apply moveY_cases in HY.
      destruct HY as [[_ ->]|[[HmY ->]|(HmY & Hup & ->)]]; unfold P;
        cbn [Map.body Map.collisions Map.movingX Map.movingY snd fst];
        repeat split; auto.
      intros _. rewrite Hvel in Hup. fold vy in Hup.
      apply positive_number; auto. }
    apply moveX_cases in HX.
    destruct HX as [[_ ->]|(HmX & sl & Hslope & Hsl)];
      [unfold P; repeat split; auto|].
    assert (P i sl) as (Hvel2 & HV2 & HMY2 & HH2 & HMX2 & HX02).
    { destruct Hsl as [->|[(Hleft & ->)|(Hleft & ->)]]; unfold P;
        cbn [Map.body Map.collisions Map.movingX Map.movingY snd fst];
        repeat split; auto; try discriminate.
      - intros E. rewrite (HMX1 HmX) in E. discriminate E.
      - intros _. left. rewrite Hvel1 in Hleft. now apply ltb_lt.
      - intros E. rewrite (HMX1 HmX) in E. discriminate E.
      - intros _. right. rewrite Hvel1 in Hleft. fold vx in Hleft.
        apply positive_number; auto.
      - intros E. rewrite (HMX1 HmX) in E. discriminate E. }
    apply moveSlope_cases in Hslope.
    destruct Hslope as [->|(_ & [->| ->])]; unfold P, withBody;
      cbn [Map.body Map.collisions Map.movingX Map.movingY]; repeat split; auto.
  - unfold P. cbn [Map.body Map.collisions Map.movingX Map.movingY snd fst].
    repeat split; auto; discriminate.
  - destruct HP as (_ & HV & _ & HH & _ & HX0).
    split; [exact HV|]. split; [exact HH|].
    intros Hzero. apply HX0. unfold neqb. fold vx in Hzero. now rewrite Hzero.
Qed.


Lemma whole_floor (x : number) : whole (floor x).
Proof.
  destruct x as [| |q|]; try reflexivity.
  unfold whole, floor. now rewrite Qfloor_Z.
Qed.

Lemma whole_ceil (x : number) : whole (ceil x).
Proof.
  destruct x as [| |q|]; try reflexivity.
  unfold whole, floor, ceil. now rewrite Qfloor_Z.
Qed.

Lemma whole_of_Z (z : Z) : whole (of_Z z).
Proof. unfold whole, floor, of_Z. now rewrite Qfloor_Z. Qed.

Lemma whole_integer (x : number) :
  whole x -> isFinite x = true -> exists z, x = of_Z z.
Proof.
  destruct x as [| |q|]; try discriminate. intros H _.
  exists (Qfloor q). symmetry. exact H.
Qed.

Lemma whole_sub_1 (x : number) : whole x -> whole (x - 1%Z)%num.
Proof.
  intros H. destruct (isFinite x) eqn:Hfin.
  - destruct (whole_integer x H Hfin) as [z ->].
    replace (of_Z z - of_Z 1)%num with (of_Z (z - 1)); [apply whole_of_Z|].
    unfold sub, of_Z. f_equal. symmetry. apply Qred_integer.
    unfold Zminus. rewrite inject_Z_plus, inject_Z_opp. reflexivity.
  - destruct x; try discriminate Hfin; reflexivity.
Qed.

Lemma whole_add_1 (x : number) : whole x -> whole (x + 1%Z)%num.
Proof.
  intros H. destruct (isFinite x) eqn:Hfin.
  - destruct (whole_integer x H Hfin) as [z ->].
    rewrite add_of_Z. apply whole_of_Z.
  - destruct x; try discriminate Hfin; reflexivity.
Qed.

(** X12.  A collision snaps the actor to the pixel grid: when [move]
    returns the vertical flag the actor's [y] is a whole number, and when
    it returns the horizontal flag its [x] is. *)
Theorem collision_snaps_to_whole (this' : Map.t) (actor' : Actor.t)
    (flags : bool * bool) :
  Map.move fuel EPSILON this actor = Some (this', actor', flags) ->
  (flags.2 = true -> whole (Actor.y actor'))
  /\ (flags.1 = true -> whole (Actor.x actor')).
Proof.
  unfold Map.move. cbv zeta.
  set (magnitude := ceil_sqrt _). intros H.
  destruct (Map.move_loop _ _ _ _ _ _ _) as [st|] eqn:Hloop; [|discriminate H].
  cbn [mbind option_bind] in H. injection H as _ <- <-.
  pose (P := fun (_ : Z) (st : Map.moving) =>
    ((Map.collisions st).2 = true ->
     Map.movingY st = false /\ whole (Actor.y (Map.body st)))
    /\ ((Map.collisions st).1 = true ->
        Map.movingX st = false /\ whole (Actor.x (Map.body st)))).
  destruct (move_loop_indexed fuel EPSILON this magnitude P) with
    (n := fuel) (i := 0) (st' := st)
    (st := {| Map.body := actor;
              Map.movingX := neqb (Point.x (Actor.velocity actor)) 0%Z;
              Map.movingY := neqb (Point.y (Actor.velocity actor)) 0%Z;
              Map.collisions := (false, false) |})
    as (j & _ & HP & _); [| |exact Hloop|].
  - clear st Hloop. intros i st st1 st2 (HV & HH) _ HY HX.
    assert (P i st1) as (HV1 & HH1).
    { apply moveY_cases in HY.
      destruct HY as [[_ ->]|[[HmY ->]|(HmY & _ & ->)]]; unfold P;
        cbn [Map.body Map.collisions Map.movingX Map.movingY snd fst];
        [auto| |].
      - split; [|exact HH]. intros Hc. destruct (HV Hc) as [E _].
        rewrite E in HmY. discriminate HmY.
      - split; [intros _; split; [reflexivity | apply whole_floor]|exact HH]. }
    apply moveX_cases in HX.
    destruct HX as [[_ ->]|(HmX & sl & Hslope & Hsl)]; [split; assumption|].
    assert (P i sl) as (HV2 & HH2).
    { destruct Hsl as [->|[(_ & ->)|(_ & ->)]]; unfold P;
        cbn [Map.body Map.collisions Map.movingX Map.movingY snd fst].
      - split; [exact HV1|]. intros Hc. destruct (HH1 Hc) as [E _].
        rewrite E in HmX. discriminate HmX.
      - split; [exact HV1|]. intros _. split; [reflexivity | apply whole_ceil].
      - split; [exact HV1|]. intros _. split; [reflexivity | apply whole_floor]. }
    apply moveSlope_cases in Hslope.
    destruct Hslope as [->|(HmY & [->| ->])]; unfold P, withBody;
      cbn [Map.body Map.collisions Map.movingX Map.movingY]; [split; assumption| |].
    + split; [|exact HH2]. intros Hc. destruct (HV2 Hc) as [E Hw].
      split; [exact E | now apply whole_sub_1].
    + split; [|exact HH2]. intros Hc. destruct (HV2 Hc) as [E Hw].
      split; [exact E | now apply whole_add_1].
  - unfold P. cbn. split; discriminate.
  - destruct HP as [HV HH]. split; intros Hc; [apply HV | apply HH]; exact Hc.
Qed.

End MoveFlags.

Section MoveDisplacement.

Local Open Scope Q_scope.

Variables (fuel : nat) (EPSILON : number) (this : Map.t) (actor : Actor.t).








End MoveDisplacement.

Section HorizontalCollision.

Local Open Scope Q_scope.

Variables (fuel : nat) (this : Map.t) (actor : Actor.t).



End HorizontalCollision.

(* ================================================================= *)
(** ** More on actors *)

Section ActorFacts.

Local Open Scope Q_scope.

Variable repulsionForce : number -> number -> number.

Lemma set_velocity_x_same (a : Actor.t) :
  Actor.set_velocity_x a (Point.x (Actor.velocity a)) = a.
Proof. destruct a as [p s [vx vy] f w i c]. reflexivity. Qed.

(** X15.  [repel] writes nothing but the two horizontal velocities: each
    actor after the call is the actor before it with, at most, another
    horizontal velocity. *)
Theorem repel_writes_horizontal_velocity_only (this other : Actor.t)
    (damper : number) :
  let after := Actor.repel repulsionForce this other damper in
  after.1.1
  = Actor.set_velocity_x this (Point.x (Actor.velocity after.1.1))
  /\ after.1.2
     = Actor.set_velocity_x other (Point.x (Actor.velocity after.1.2)).
Proof.
  cbv zeta. unfold Actor.repel.
  repeat match goal with
         | |- context [if ?c then _ else _] => destruct c
         end;
    cbn [fst snd]; split;
    (symmetry; apply set_velocity_x_same) || reflexivity.
Qed.

Lemma add_comm (x y : number) : (x + y)%num = (y + x)%num.
Proof.
  destruct x, y; try reflexivity. unfold add. f_equal.
  apply Qred_complete. ring.
Qed.

Lemma abs_sub_swap (x y : number) : abs (x - y) = abs (y - x).
Proof.
  destruct x as [| |a|], y as [| |b|]; try reflexivity.
  unfold sub, abs. f_equal.
  assert (E : Qred (b - a) = - Qred (a - b)).
  { rewrite <- Qred_opp. apply Qred_complete. ring. }
  rewrite E. destruct (Qred (a - b)) as [n d]. unfold Qabs, Qopp. simpl.
  now rewrite Z.abs_opp.
Qed.

(** X16.  Being close enough is symmetric: for two collideable actors
    [repel] returns the same boolean whichever of them is [this], whatever
    the dampers. *)
Theorem repel_result_symmetric (this other : Actor.t) (damper damper' : number) :
  Actor.collideable this = true ->
  Actor.collideable other = true ->
  (Actor.repel repulsionForce this other damper).2
  = (Actor.repel repulsionForce other this damper').2.
Proof.
  intros Hthis Hother. unfold Actor.repel. rewrite Hthis, Hother. cbn [negb].
  rewrite (abs_sub_swap (Actor.horizontalCenter other)),
    (add_comm (Point.x (Actor.size other) / 2%Z)).
  repeat match goal with
         | |- context [if ?c then _ else _] => destruct c
         end; reflexivity.
Qed.


End ActorFacts.

(* ================================================================= *)
(** ** The further statements at concrete inputs *)


Lemma testLine_no_iteration_witness :
  Map.testLine_run 0 (Point.new 1%Z 2%Z) (Point.new 3%Z 4%Z)
    (fun x y : number => true) (-1)%Z
  = Some (false, []).
Proof.
  apply testLine_no_iteration. right. reflexivity.
Defined.

Lemma testLine_infinite_steps_witness :
  Map.testLine 7 (Point.new 1%Z 2%Z) (Point.new 3%Z 4%Z)
    (fun x y : number => false) PInf
  = None.
Proof.
  apply (testLine_infinite_steps (Point.new 1%Z 2%Z) (Point.new 3%Z 4%Z)
           (fun x y : number => false)).
  reflexivity.
Defined.

Lemma query_gives_palette_type_witness :
  Map.GroundType.SOLID ∈ groundTypes.
Proof.
  apply (query_gives_palette_type 10 1 scenarioGrid (15 # 2)%Q (1 # 2)%Q
           scenarioGrid_constructed).
  reflexivity.
Defined.

Lemma construct_then_query_witness :
  Map.getPixelData scenarioGrid (15 # 2)%Q (1 # 2)%Q = classify scenarioImage 7.
Proof.
  apply (construct_then_query 10 1 scenarioImage scenarioGrid
           (15 # 2)%Q (1 # 2)%Q 7 0);
    try reflexivity; split; (reflexivity || discriminate).
Defined.

Lemma construct_ignores_alpha_witness :
  Map.construct (withData (textureOf 10 1 scenarioImage) scenarioImage)
  = Map.construct (withData (textureOf 10 1 scenarioImage) scenarioImageClear).
Proof.
  apply construct_ignores_alpha; [reflexivity|].
  intros i Hi.
  do 40 (destruct i as [|i]; [reflexivity || (exfalso; apply Hi; reflexivity)|]).
  reflexivity.
Defined.

Lemma destroy_clears_cells_witness :
  Map.getPixelData (Map.destroy scenarioGrid) (15 # 2)%Q (1 # 2)%Q = None.
Proof.
  apply (destroy_clears_cells scenarioGrid (15 # 2)%Q (1 # 2)%Q).
  unfold outside. intros [H|[H|[H|H]]]; revert H; vm_compute; intros H;
    (discriminate H || (apply H; reflexivity)).
Defined.

Lemma outside_rows_is_ground_witness :
  Map.isGrounded 1 (1 # 1000)%Q scenarioGrid (Actor.set_y groundedBody (-1)%Z)
  = Some true
  /\ Map.actorIsOnSolidGround 1 (1 # 1000)%Q scenarioGrid scenarioBody 0%Z
     = Some true.
Proof.
  split.
  - apply (outside_rows_is_ground 0 (1 # 1000)%Q scenarioGrid
             (Actor.set_y groundedBody (-1)%Z) 0%Z 1 1%Q eq_refl eq_refl);
      [right; discriminate | reflexivity | intros H; discriminate H].
  - exact (proj1 (outside_rows_is_ground 0 (1 # 1000)%Q scenarioGrid
                    scenarioBody 0%Z 1 (-1)%Q eq_refl eq_refl
                    (or_introl eq_refl))).
Defined.

Lemma solid_ground_is_walkable_witness :
  Map.actorIsOnWalkableGround 3 (1 # 1000)%Q scenarioGrid groundedBody 0%Z
  = Some true.
Proof.
  exact (proj1 (solid_ground_is_walkable 3 (1 # 1000)%Q scenarioGrid 10 1
                  groundedBody 0%Z scenarioGrid_constructed eq_refl)).
Defined.

Lemma move_at_rest_witness :
  Map.move 0 (1 # 1000)%Q platformGrid standingBody
  = Some (platformGrid, standingBody, (false, false)).
Proof.
  apply move_at_rest. right. right. split; reflexivity.
Defined.

Lemma collision_needs_motion_witness :
  (0%Z < Point.y (Actor.velocity scenarioBody))%num
  /\ ((Point.x (Actor.velocity runner) < 0%Z)%num
      \/ (0%Z < Point.x (Actor.velocity runner))%num).
Proof.
  split.
  - apply (collision_needs_motion 5 (1 # 1000)%Q scenarioGrid scenarioBody
             scenarioGrid (Actor.set_y scenarioBody (-3)%Z) (false, true)
             ltac:(vm_compute; reflexivity)).
    reflexivity.
  - apply (collision_needs_motion 5 (1 # 1000)%Q corridorGrid runner
             corridorGrid (Actor.set_position runner (Point.new 3%Z 2%Z))
             (true, false) ltac:(vm_compute; reflexivity)).
    reflexivity.
Defined.

Lemma collision_snaps_to_whole_witness :
  whole (Actor.x (Actor.set_position runner (Point.new 3%Z 2%Z))).
Proof.
  apply (collision_snaps_to_whole 5 (1 # 1000)%Q corridorGrid runner
           corridorGrid (Actor.set_position runner (Point.new 3%Z 2%Z))
           (true, false) ltac:(vm_compute; reflexivity)).
  reflexivity.
Defined.



Lemma repel_writes_horizontal_velocity_only_witness :
  Actor.position (Actor.repel unitForce leftBody rightBody Actor.default_damper).1.1
  = Actor.position leftBody.
Proof.
  rewrite (proj1 (repel_writes_horizontal_velocity_only unitForce leftBody
                    rightBody Actor.default_damper)).
  reflexivity.
Defined.

Lemma repel_result_symmetric_witness :
  (Actor.repel unitForce rightBody leftBody 1%Z).2 = true.
Proof.
  rewrite <- (repel_result_symmetric unitForce leftBody rightBody
                Actor.default_damper 1%Z eq_refl eq_refl).
  reflexivity.
Defined.


